(** * Splunk forwarder health check (checkmk/splunk_health_check.py)

    A shallow embedding of the Checkmk local check and the properties of its
    block selection, attribute parsing, severity reduction and report
    formatting.

    Python [str] values are modelled as Rocq strings.  Character classes and
    case mappings are those of Python on ASCII text: a character outside the
    ASCII range is left alone by [lower] and [upper], and is neither white
    space, nor a digit, nor a word character, whereas Python also knows
    white space, digits and letters beyond ASCII.  A property that depends
    on these functions beyond the three colour words is stated for ASCII
    text, with [is_ascii] as a hypothesis.  The external
    [tail] process is modelled by its outcome (return code, captured output,
    or the exception raised when it cannot be started). *)

From Stdlib Require Import ZArith Ascii.
From stdpp Require Import gmap strings list fin_maps pretty.

Local Open Scope Z_scope.

(** ** Python string primitives *)

Module PyStr.

(** [str.isspace] on one ASCII character: TAB, LF, VT, FF, CR, the four
    separators FS, GS, RS, US, and the space.  [str.strip()] and the
    regular-expression class [\s] both use it. *)
Definition is_space (c : ascii) : bool :=
  let n := N_of_ascii c in
  ((9 <=? n) && (n <=? 13) || (28 <=? n) && (n <=? 32))%N.

(** The class [\d] restricted to ASCII. *)
Definition is_digit (c : ascii) : bool :=
  let n := N_of_ascii c in ((48 <=? n) && (n <=? 57))%N.

Definition is_upper (c : ascii) : bool :=
  let n := N_of_ascii c in ((65 <=? n) && (n <=? 90))%N.

Definition is_lower (c : ascii) : bool :=
  let n := N_of_ascii c in ((97 <=? n) && (n <=? 122))%N.

(** The class [[a-zA-Z0-9_]]. *)
Definition is_word (c : ascii) : bool :=
  is_lower c || is_upper c || is_digit c || bool_decide (c = "_"%char).

Definition lower_char (c : ascii) : ascii :=
  if is_upper c then ascii_of_N (N_of_ascii c + 32) else c.

Definition upper_char (c : ascii) : ascii :=
  if is_lower c then ascii_of_N (N_of_ascii c - 32) else c.

Fixpoint map_chars (f : ascii → ascii) (s : string) : string :=
  match s with
  | "" => ""
  | String c s' => String (f c) (map_chars f s')
  end.

(** [s.lower()] and [s.upper()]. *)
Definition lower : string → string := map_chars lower_char.
Definition upper : string → string := map_chars upper_char.

(** [s.startswith(p)]. *)
Fixpoint startswith (p s : string) : bool :=
  match p, s with
  | "", _ => true
  | String a p', String b s' => bool_decide (a = b) && startswith p' s'
  | String _ _, "" => false
  end.

(** [sub in s]. *)
Fixpoint contains (sub s : string) : bool :=
  startswith sub s ||
  match s with
  | "" => false
  | String _ s' => contains sub s'
  end.

Fixpoint drop (n : nat) (s : string) : string :=
  match n, s with
  | O, _ => s
  | S n', String _ s' => drop n' s'
  | S _, "" => ""
  end.

(** [s.lstrip()], [s.rstrip()], [s.strip()]. *)
Fixpoint lstrip (s : string) : string :=
  match s with
  | "" => ""
  | String c s' => if is_space c then lstrip s' else s
  end.

Fixpoint rstrip (s : string) : string :=
  match s with
  | "" => ""
  | String c s' =>
      match rstrip s' with
      | "" => if is_space c then "" else String c ""
      | r => String c r
      end
  end.

Definition strip (s : string) : string := rstrip (lstrip s).

(** The first occurrence of a non-empty separator: the text before it and
    the text after it. *)
Fixpoint find_sep (sep s : string) : option (string * string) :=
  if startswith sep s then Some ("", drop (String.length sep) s)
  else
    match s with
    | "" => None
    | String c s' =>
        match find_sep sep s' with
        | Some (before, after) => Some (String c before, after)
        | None => None
        end
    end.

(** [s.split(sep)] for a non-empty [sep]: cut at the successive
    occurrences, scanning from the left, each search resuming after the
    previous occurrence.  Every cut consumes at least the separator, so
    [S (String.length s)] steps always suffice. *)
Fixpoint split_fuel (fuel : nat) (sep s : string) : list string :=
  match fuel with
  | O => [s]
  | S fuel' =>
      match find_sep sep s with
      | None => [s]
      | Some (before, after) => before :: split_fuel fuel' sep after
      end
  end.

Definition split (sep s : string) : list string :=
  split_fuel (S (String.length s)) sep s.

(** [sep.join(l)]. *)
Fixpoint join (sep : string) (l : list string) : string :=
  match l with
  | [] => ""
  | [x] => x
  | x :: l' => x +:+ sep +:+ join sep l'
  end.

(** Truthiness of a string: the empty string is false. *)
Definition truthy (s : string) : bool := negb (bool_decide (s = "")).

(** [str(n)] for an integer. *)
Definition str_of_int (n : Z) : string := pretty n.

End PyStr.

Import PyStr.

(** The double-quote character, a one-character string holding it, and the
    line feed. *)
Definition DQ_char : ascii := "034"%char.
Definition DQ : string := String DQ_char "".
Definition LF_char : ascii := "010"%char.
Definition LF : string := String LF_char "".

(** ** The two regular expressions of the script *)

Module Re.

(** *** A backtracking matcher

    The part of Python's regular expressions the script uses: a character
    of a class, greedy repetitions of a class, sequence, ordered
    alternative, numbered groups. *)
Inductive regex : Type :=
| Chr (p : ascii → bool)
| Star (p : ascii → bool)
| Plus (p : ascii → bool)
| Cat (r1 r2 : regex)
| Alt (r1 r2 : regex)
| Group (n : nat) (r : regex).

(** The text of the groups matched so far, and what a matcher does next:
    given the unread text and the groups, the outcome of the rest of the
    pattern. *)
Abbreviation groups := (gmap nat string).
Abbreviation outcome := (option (gmap nat string * string)).
Abbreviation continuation := (string → gmap nat string → outcome).

(** Greedy repetition: take one more character when the class allows it and
    the rest of the pattern then succeeds, else go on from here. *)
Fixpoint star (p : ascii → bool) (s : string) (g : groups)
    (k : continuation) : outcome :=
  match s with
  | String c s' =>
      if p c then
        match star p s' g k with
        | Some r => Some r
        | None => k s g
        end
      else k s g
  | "" => k s g
  end.

Fixpoint take_chars (n : nat) (s : string) : string :=
  match n, s with
  | S n', String c s' => String c (take_chars n' s')
  | _, _ => ""
  end.

(** What was read between the text [s] and its suffix [rest]. *)
Definition consumed (s rest : string) : string :=
  take_chars (String.length s - String.length rest) s.

(** [exec r s g k]: match [r] at the start of [s], then go on with [k].  The
    first way of matching [r] for which [k] succeeds is the one taken; the
    groups set on an abandoned way are forgotten. *)
Fixpoint exec (r : regex) (s : string) (g : groups) (k : continuation)
    : outcome :=
  match r with
  | Chr p =>
      match s with
      | String c s' => if p c then k s' g else None
      | "" => None
      end
  | Star p => star p s g k
  | Plus p =>
      match s with
      | String c s' => if p c then star p s' g k else None
      | "" => None
      end
  | Cat r1 r2 => exec r1 s g (λ s1 g1, exec r2 s1 g1 k)
  | Alt r1 r2 =>
      match exec r1 s g k with
      | Some x => Some x
      | None => exec r2 s g k
      end
  | Group n r1 => exec r1 s g (λ s1 g1, k s1 (<[n := consumed s s1]> g1))
  end.

(** *** The attribute pattern

    In the comments of this module [Q] stands for the double-quote character
    and the star is written [{0,}]. *)

(** The classes [[^Q]] and [[^Q\s]], and a single character. *)
Definition not_quote (c : ascii) : bool := negb (bool_decide (c = DQ_char)).
Definition token_char (c : ascii) : bool := not_quote c && negb (is_space c).
Definition char (a c : ascii) : bool := bool_decide (c = a).

(** [([a-zA-Z0-9_]+)=(Q([^Q]{0,})Q|([^Q\s]+))] *)
Definition attribute_pattern : regex :=
  Cat (Group 1 (Plus is_word))
    (Cat (Chr (char "="))
       (Group 2
          (Alt (Cat (Chr (char DQ_char))
                  (Cat (Group 3 (Star not_quote)) (Chr (char DQ_char))))
               (Group 4 (Plus token_char))))).

(** One attempt of the pattern at the start of [s]: the key (group 1), the
    value ([match.group(3)] unless it is [None], else [match.group(4)]) and
    the unread text. *)
Definition match_at (s : string) : option (string * string * string) :=
  match exec attribute_pattern s ∅ (λ rest g, Some (g, rest)) with
  | Some (g, rest) =>
      match g !! 1%nat with
      | Some key =>
          match g !! 3%nat with
          | Some value => Some (key, value, rest)
          | None =>
              match g !! 4%nat with
              | Some value => Some (key, value, rest)
              | None => None
              end
          end
      | None => None
      end
  | None => None
  end.

(** [re.finditer]: the matches from left to right, each search starting
    where the previous match ended; where no match starts, move one
    character on.  A match is never empty, so every step shortens the text
    and [String.length s] steps suffice. *)
Fixpoint finditer_fuel (fuel : nat) (s : string) : list (string * string) :=
  match fuel with
  | O => []
  | S fuel' =>
      match s with
      | "" => []
      | String _ s' =>
          match match_at s with
          | Some (key, v, rest) => (key, v) :: finditer_fuel fuel' rest
          | None => finditer_fuel fuel' s'
          end
      end
  end.

Definition finditer (s : string) : list (string * string) :=
  finditer_fuel (String.length s) s.

(** *** The same attempt as one scan

    No repetition of the pattern ever gives a character back: the character
    that must follow a run is outside the class of the run.  The attempt is
    therefore a scan from left to right, which [match_at_scan] below proves
    equal to [match_at]. *)

(** The longest prefix whose characters satisfy [p], and what follows
    it. *)
Fixpoint span (p : ascii → bool) (s : string) : string * string :=
  match s with
  | "" => ("", "")
  | String c s' =>
      if p c then let '(a, b) := span p s' in (String c a, b) else ("", s)
  end.

(** [Q([^Q]{0,})Q]: an opening quote, the longest run without a quote, a
    closing quote.  Group 3 and the unread text. *)
Definition quoted_value (s : string) : option (string * string) :=
  match s with
  | String c s1 =>
      if bool_decide (c = DQ_char) then
        let '(v, s2) := span not_quote s1 in
        match s2 with
        | String _ s3 => Some (v, s3)
        | "" => None
        end
      else None
  | "" => None
  end.

(** [([^Q\s]+)]: the longest non-empty run of characters that are neither a
    quote nor white space.  Group 4 and the unread text. *)
Definition token_value (s : string) : option (string * string) :=
  let '(v, s1) := span token_char s in
  if truthy v then Some (v, s1) else None.

Definition match_here (s : string) : option (string * string * string) :=
  let '(key, s1) := span is_word s in
  if truthy key then
    match s1 with
    | String "="%char s2 =>
        match quoted_value s2 with
        | Some (v, rest) => Some (key, v, rest)
        | None =>
            match token_value s2 with
            | Some (v, rest) => Some (key, v, rest)
            | None => None
            end
        end
    | _ => None
    end
  else None.

(** *** The timestamp pattern *)

(** The elements of the fixed-width timestamp pattern. *)
Inductive cls : Set :=
| Digit
| Lit (c : ascii)
| Sign.

Definition accepts (k : cls) (c : ascii) : bool :=
  match k with
  | Digit => is_digit c
  | Lit a => bool_decide (c = a)
  | Sign => bool_decide (c = "+"%char) || bool_decide (c = "-"%char)
  end.

(** Matching a sequence of single-character classes at the start of [s];
    the result is the matched text (group 0). *)
Fixpoint match_classes (pat : list cls) (s : string) : option string :=
  match pat with
  | [] => Some ""
  | k :: pat' =>
      match s with
      | "" => None
      | String c s' =>
          if accepts k c then
            match match_classes pat' s' with
            | Some m => Some (String c m)
            | None => None
            end
          else None
      end
  end.

(** [^\d{2}-\d{2}-\d{4} \d{2}:\d{2}:\d{2}\.\d{3} [+-]\d{4}] *)
Definition timestamp_pattern : list cls :=
  [Digit; Digit; Lit "-"; Digit; Digit; Lit "-"; Digit; Digit; Digit; Digit;
   Lit " ";
   Digit; Digit; Lit ":"; Digit; Digit; Lit ":"; Digit; Digit;
   Lit "."; Digit; Digit; Digit;
   Lit " "; Sign; Digit; Digit; Digit; Digit]%char.

Definition match_timestamp : string → option string :=
  match_classes timestamp_pattern.

End Re.

(** ** The script *)

(** An attribute dictionary and an element of [entries_with_raw]. *)
Abbreviation attrs := (gmap string string).
Abbreviation entry := (gmap string string * string)%type.

(** [parse_attributes]: a later occurrence of a key replaces the earlier
    one. *)
Definition parse_attributes (attribute_string : string) : attrs :=
  foldl (λ attributes '(key, value), <[key := value]> attributes)
        ∅ (Re.finditer attribute_string).

(** What [subprocess.run] can do and [get_latest_log_block] handles:
    complete with a return code and the two captured streams as text, or
    raise an [OSError].  [IOError] is Python's [OSError];
    [FileNotFoundError] is one of its subclasses.  With [text=True] the
    call can also fail to decode the captured bytes; that exception is no
    [OSError], no handler takes it, and [run_script] below accounts for
    it. *)
Inductive os_error : Set :=
| OtherOSError (msg : string)
| FileNotFoundError (msg : string).

Definition exn_str (e : os_error) : string :=
  match e with
  | OtherOSError msg => msg
  | FileNotFoundError msg => msg
  end.

(** [isinstance(e, IOError)] *)
Definition is_IOError (e : os_error) : bool :=
  match e with
  | OtherOSError _ => true
  | FileNotFoundError _ => true
  end.

Inductive tail_outcome : Set :=
| Completed (returncode : Z) (stdout stderr : string)
| Raised (e : os_error).

(** The result triple [(latest_block, timestamp, error)], [None] being
    Python's [None]. *)
Abbreviation block_result :=
  (option (list string) * option string * option string)%type.

(** The loop over [reversed(lines)]: a matching line is inserted at the
    front of [latest_block], the first line that does not match ends the
    loop. *)
Fixpoint collect_block (latest_timestamp_prefix : string)
    (reversed_lines latest_block : list string) : list string :=
  match reversed_lines with
  | [] => latest_block
  | line :: more =>
      if startswith latest_timestamp_prefix line
      then collect_block latest_timestamp_prefix more (line :: latest_block)
      else latest_block
  end.

(** [get_latest_log_block] from [if not lines:] on. *)
Definition select_block (lines : list string) : block_result :=
  match last lines with
  | None =>
      (None, None,
       Some "No 'PeriodicHealthReporter' entries found in the last 200 lines of the log.")
  | Some last_line =>
      match Re.match_timestamp last_line with
      | None =>
          (None, None,
           Some "Could not determine timestamp from the last log entry.")
      | Some latest_timestamp_prefix =>
          (Some (collect_block latest_timestamp_prefix (reverse lines) []),
           Some latest_timestamp_prefix, None)
      end
  end.

Definition filter_lines (tailed_lines : list string) : list string :=
  List.filter (contains "PeriodicHealthReporter") tailed_lines.

(** [get_latest_log_block].  The handlers are tried in the order of the
    source: the one for [IOError] comes first and takes every [OSError],
    [FileNotFoundError] included. *)
Definition get_latest_log_block (run : tail_outcome) : block_result :=
  match run with
  | Completed returncode stdout stderr =>
      if bool_decide (returncode ≠ 0) then
        (None, None, Some ("Error running 'tail' command: " +:+ stderr))
      else
        let tailed_lines := split LF (strip stdout) in
        select_block (filter_lines tailed_lines)
  | Raised e =>
      if is_IOError e then
        (None, None, Some ("Error reading log file: " +:+ exn_str e))
      else
        (None, None,
         Some "Error: 'tail' command not found. Is this a standard Linux system?")
  end.

(** *** [main], the entries *)

Definition SEPARATOR : string := "PeriodicHealthReporter - ".

(** One turn of the loop that fills [entries_with_raw]: [None] when the line
    adds nothing. *)
Definition entry_of_line (line : string) : option entry :=
  let parts := split SEPARATOR line in
  if bool_decide (1 < length parts)%nat then
    match parts !! 1%nat with
    | Some part =>
        let raw_attribute_string := strip part in
        Some (parse_attributes raw_attribute_string, raw_attribute_string)
    | None => None
    end
  else None.

Definition collect_entries (latest_block : list string) : list entry :=
  omap entry_of_line latest_block.

(** *** [main], the severity *)

Definition color_precedence : gmap string Z :=
  <["red" := 2]> (<["yellow" := 1]> (<["green" := 0]> ∅)).

(** [entry_dict.get('color', 'green').lower()] *)
Definition entry_color (e : entry) : string :=
  lower (default "green" (e.1 !! "color")).

(** One turn of the loop over the entries, on the pair
    [(worst_color_str, worst_color_level)]. *)
Definition worst_step (worst : string * Z) (e : entry) : string * Z :=
  let color_str := entry_color e in
  match color_precedence !! color_str with
  | Some color_level =>
      if bool_decide (color_level > worst.2) then (color_str, color_level)
      else worst
  | None => worst
  end.

Definition worst_color (entries_with_raw : list entry) : string * Z :=
  foldl worst_step ("green", 0) entries_with_raw.

Definition overall_color (entries_with_raw : list entry) : string :=
  (worst_color entries_with_raw).1.

Definition status_map : gmap string (Z * string) :=
  <["green" := (0, "OK")]>
    (<["yellow" := (1, "WARN")]> (<["red" := (2, "CRIT")]> ∅)).

(** [status_map.get(overall_color, (3, 'UNKNOWN'))] *)
Definition status_of (entries_with_raw : list entry) : Z * string :=
  default (3, "UNKNOWN") (status_map !! overall_color entries_with_raw).

Definition status_code (entries_with_raw : list entry) : Z :=
  (status_of entries_with_raw).1.

Definition status_text (entries_with_raw : list entry) : string :=
  (status_of entries_with_raw).2.

(** *** [main], the report *)

(** The summary as first built, before any issue is added. *)
Definition output_summary (entries_with_raw : list entry) (timestamp : string)
    : string :=
  status_text entries_with_raw +:+ ": Overall status is "
    +:+ upper (overall_color entries_with_raw)
    +:+ " (Log Time: " +:+ timestamp +:+ ")".

(** The test of the second loop. *)
Definition is_problem (e : entry) : bool :=
  negb (bool_decide (entry_color e = "green")).

(** The entries the second loop retains: none unless the status code is
    positive. *)
Definition problems (entries_with_raw : list entry) : list entry :=
  if bool_decide (status_code entries_with_raw > 0)
  then List.filter is_problem entries_with_raw
  else [].

Definition problem_lines_raw (entries_with_raw : list entry) : list string :=
  snd <$> problems entries_with_raw.

(** [x or y] for a dictionary lookup [x] and a string [y]: [y] unless [x] is
    a non-empty string.  [a or b or c] is the first of [a], [b] that is
    true, else [c], however it is bracketed. *)
Definition or_else (x : option string) (y : string) : string :=
  match x with
  | Some s => if truthy s then s else y
  | None => y
  end.

Definition display_name (e : entry) : string :=
  or_else (e.1 !! "feature") (or_else (e.1 !! "node_path") "Component").

(** The item appended to [problems_summary_list]. *)
Definition problem_item (e : entry) : string :=
  "[" +:+ upper (default "N/A" (e.1 !! "color")) +:+ "] " +:+ display_name e.

Definition problems_summary_list (entries_with_raw : list entry)
    : list string :=
  problem_item <$> problems entries_with_raw.

(** The summary once the issues are added; only used when there are
    problem lines. *)
Definition output_summary_issues (entries_with_raw : list entry)
    (timestamp : string) : string :=
  output_summary entries_with_raw timestamp
    +:+ " (Issues: "
    +:+ join ", " (take 2 (problems_summary_list entries_with_raw))
    +:+ "...)".

(** Python's ["\\n"]: a backslash and the letter n.  Rocq strings have no
    escapes, so this literal is those two characters. *)
Definition BACKSLASH_N : string := "\n".

Definition final_output (entries_with_raw : list entry) (timestamp : string)
    : string :=
  match problem_lines_raw entries_with_raw with
  | [] => output_summary entries_with_raw timestamp
  | _ :: _ =>
      output_summary_issues entries_with_raw timestamp
        +:+ BACKSLASH_N
        +:+ join BACKSLASH_N (problem_lines_raw entries_with_raw)
  end.

(** The service name between its quotes. *)
Definition SERVICE : string := DQ +:+ "Splunk Health" +:+ DQ.

(** The text of the last [print] of [main]. *)
Definition report (entries_with_raw : list entry) (timestamp : string)
    : string :=
  str_of_int (status_code entries_with_raw) +:+ " " +:+ SERVICE +:+ " - "
    +:+ final_output entries_with_raw timestamp.

(** How an f-string shows a value that may be [None]. *)
Definition format_opt (x : option string) : string := default "None" x.

(** Truthiness of a value that is a string or [None], and of a list or
    [None]. *)
Definition truthy_opt (x : option string) : bool :=
  match x with
  | Some s => truthy s
  | None => false
  end.

Definition nonempty_opt (x : option (list string)) : bool :=
  match x with
  | Some (_ :: _) => true
  | _ => false
  end.

(** [main]: the text handed to [print] (which adds the line end). *)
Definition main (run : tail_outcome) : string :=
  let '(latest_block, timestamp, error) := get_latest_log_block run in
  if truthy_opt error then
    "3 " +:+ SERVICE +:+ " - UNKNOWN: " +:+ format_opt error
  else if negb (nonempty_opt latest_block) then
    "3 " +:+ SERVICE
      +:+ " - UNKNOWN: Could not find a valid health report block in the log."
  else
    let entries_with_raw := collect_entries (default [] latest_block) in
    match entries_with_raw with
    | [] =>
        "3 " +:+ SERVICE
          +:+ " - UNKNOWN: No attributes parsed from the latest report."
    | _ :: _ => report entries_with_raw (format_opt timestamp)
    end.

(** *** Levels, for stating what the reduction computes *)

(** The level an entry contributes: that of its colour when the precedence
    table has it, and nothing otherwise. *)
Definition level (e : entry) : Z :=
  default 0 (color_precedence !! entry_color e).

(** The highest level of a block. *)
Definition max_level (entries : list entry) : Z :=
  foldr (λ e acc, Z.max (level e) acc) 0 entries.

(** The colour the table gives each level. *)
Definition color_at (l : Z) : string :=
  if bool_decide (l = 2) then "red"
  else if bool_decide (l = 1) then "yellow" else "green".

(** ** Sample runs *)

Definition T1 : string := "14-11-2025 10:00:00.000 +0100".
Definition T2 : string := "14-11-2025 10:01:00.000 +0100".

Definition log_line (ts attributes : string) : string :=
  ts +:+ " INFO  PeriodicHealthReporter - " +:+ attributes.

Definition rawA : string :=
  "feature=" +:+ DQ +:+ "A" +:+ DQ +:+ " color=green".
Definition rawB : string :=
  "feature=" +:+ DQ +:+ "B" +:+ DQ +:+ " color=red".
Definition rawC : string :=
  "feature=" +:+ DQ +:+ "C" +:+ DQ +:+ " color=yellow".

Definition sample_stdout : string :=
  log_line T1 rawB +:+ LF +:+ "noise" +:+ LF
    +:+ log_line T2 rawA +:+ LF +:+ log_line T2 rawB +:+ LF
    +:+ log_line T2 rawC +:+ LF.

(** The entry [main] builds from a raw attribute string. *)
Definition entry_of_raw (raw : string) : entry := (parse_attributes raw, raw).

Definition entryA : entry := entry_of_raw rawA.
Definition entryB : entry := entry_of_raw rawB.
Definition entryC : entry := entry_of_raw rawC.

(** The line printed for a healthy block. *)
Definition ok_line (timestamp : string) : string :=
  "0 " +:+ SERVICE +:+ " - OK: Overall status is GREEN (Log Time: "
    +:+ timestamp +:+ ")".

(** A colour the precedence table does not have. *)
Definition unrecognized (e : entry) : Prop :=
  entry_color e ≠ "green" ∧ entry_color e ≠ "yellow" ∧ entry_color e ≠ "red".

Definition rawBlue : string :=
  "feature=" +:+ DQ +:+ "D" +:+ DQ +:+ " color=Blue".
Definition entryBlue : entry := entry_of_raw rawBlue.

(** Five filtered lines: two of an older report, three of the latest. *)
Definition five_lines : list string :=
  [log_line T1 rawA; log_line T1 rawB;
   log_line T2 rawA; log_line T2 rawB; log_line T2 rawC].

(** ** Notions used to state the properties *)

(** Every character of [s] satisfies [p]. *)
Fixpoint all_chars (p : ascii → bool) (s : string) : bool :=
  match s with
  | "" => true
  | String c s' => p c && all_chars p s'
  end.

(** [s] is empty or begins with a character that fails [p]. *)
Definition stops (p : ascii → bool) (s : string) : bool :=
  match s with
  | "" => true
  | String c _ => negb (p c)
  end.

(** Not a line feed. *)
Definition not_lf (c : ascii) : bool := negb (bool_decide (c = LF_char)).

(** [s] holds no line feed: it is printed on one physical line. *)
Definition one_line (s : string) : Prop := all_chars not_lf s = true.

(** [before] and [after] surround the first occurrence of [sep] in [s]. *)
Definition first_occurrence (sep s before after : string) : Prop :=
  s = before +:+ sep +:+ after ∧
  ∀ before' after', s = before' +:+ sep +:+ after' →
    (String.length before ≤ String.length before')%nat.

(** The attribute string of the parsing example. *)
Definition example_attributes : string :=
  "color=red feature=" +:+ DQ +:+ "Indexing Pipeline" +:+ DQ +:+ " count=3".

(** An entry whose raw string and attribute values hold no line feed. *)
Definition entry_one_line (e : entry) : Prop :=
  one_line e.2 ∧ ∀ key v, e.1 !! key = Some v → one_line v.

(** The raw attribute string in the specification's words: everything after
    the first occurrence of the separator. *)
Definition spec_raw_attribute_string (line : string) : option string :=
  snd <$> find_sep SEPARATOR line.

(** A line in which an attribute value quotes the separator. *)
Definition quoting_raw : string :=
  "feature=" +:+ DQ +:+ "TCPOut" +:+ DQ +:+ " color=red reason=" +:+ DQ
    +:+ "see PeriodicHealthReporter - above" +:+ DQ.

Definition quoting_line : string := log_line T2 quoting_raw.

(** The display name in the specification's words: the feature attribute,
    else the node path attribute, else the word Component. *)
Definition spec_display_name (e : entry) : string :=
  match e.1 !! "feature" with
  | Some feature => feature
  | None =>
      match e.1 !! "node_path" with
      | Some node_path => node_path
      | None => "Component"
      end
  end.

(** The issues section with that display name. *)
Definition spec_issues_section (entries_with_raw : list entry) : string :=
  " (Issues: "
    +:+ join ", "
          (take 2 ((λ e, "[" +:+ upper (default "N/A" (e.1 !! "color"))
                           +:+ "] " +:+ spec_display_name e)
                     <$> List.filter is_problem entries_with_raw))
    +:+ "...)".

(** An attribute that is present and not empty. *)
Definition nonempty_attr (e : entry) (key : string) : option string :=
  match e.1 !! key with
  | Some v => if bool_decide (v = "") then None else Some v
  | None => None
  end.

(** A red entry whose feature attribute is empty. *)
Definition rawUnnamed : string :=
  "color=red feature=" +:+ DQ +:+ DQ +:+ " node_path=splunkd.tcpout".
Definition entryUnnamed : entry := entry_of_raw rawUnnamed.

(** ** Further notions, for the properties beyond the claims *)

(** The marker of the filter, and the lines [get_latest_log_block] keeps
    from a captured output. *)
Definition MARKER : string := "PeriodicHealthReporter".

Definition kept_lines (stdout : string) : list string :=
  filter_lines (split LF (strip stdout)).

(** The four lines [main] prints for an unknown state. *)
Definition unknown_line (message : string) : string :=
  "3 " +:+ SERVICE +:+ " - UNKNOWN: " +:+ message.

Definition NO_ENTRIES : string :=
  "No 'PeriodicHealthReporter' entries found in the last 200 lines of the log.".

Definition NO_TIMESTAMP : string :=
  "Could not determine timestamp from the last log entry.".

Definition NO_BLOCK : string :=
  "Could not find a valid health report block in the log.".

Definition NO_ATTRIBUTES : string :=
  "No attributes parsed from the latest report.".

Definition TAIL_NOT_FOUND : string :=
  "Error: 'tail' command not found. Is this a standard Linux system?".

(** [part] occurs in [s]. *)
Definition substring (part s : string) : Prop :=
  ∃ before after, s = before +:+ part +:+ after.

(** A captured output whose last report is stamped year first. *)
Definition iso_stdout : string :=
  log_line T1 rawA +:+ LF
    +:+ "2025-11-14 10:02:00.000 +0100 INFO  PeriodicHealthReporter - "
    +:+ rawB +:+ LF.

(** The values a text gives to [key], in the order of the matches. *)
Definition values_of (key : string) (matches : list (string * string))
    : list string :=
  omap (λ kv, if bool_decide (kv.1 = key) then Some kv.2 else None) matches.

(** [t] is what is left of [s] after some of its characters. *)
Definition suffix_of (t s : string) : Prop := ∃ before, s = before +:+ t.

(** What Python says when the tail command is missing. *)
Definition TAIL_MISSING : string :=
  "[Errno 2] No such file or directory: 'tail'".

(** ASCII text: every character has a code below 128.  On such text
    [is_space], [is_digit], [lower] and [upper] are Python's [str.isspace],
    the digit class of the regular expressions, [str.lower] and
    [str.upper]. *)
Definition is_ascii_char (c : ascii) : bool := (N_of_ascii c <? 128)%N.

Definition is_ascii (s : string) : Prop := all_chars is_ascii_char s = true.

(** One run of the script.  Either [subprocess.run] gives an outcome that
    [get_latest_log_block] handles, and [main] prints one text; or the
    captured bytes cannot be decoded, [subprocess.run] raises
    [UnicodeDecodeError], which is a [ValueError] and not an [OSError], no
    handler takes it, and the script ends without printing anything on the
    standard output. *)
Inductive run_result : Set :=
| Outcome (run : tail_outcome)
| Undecodable.

Definition run_script (r : run_result) : option string :=
  match r with
  | Outcome run => Some (main run)
  | Undecodable => None
  end.

(** * Properties *)

Example sample_run :
  main (Completed 0 sample_stdout "") =
  "2 " +:+ SERVICE +:+ " - CRIT: Overall status is RED (Log Time: " +:+ T2
    +:+ ") (Issues: [RED] B, [YELLOW] C...)\n" +:+ rawB +:+ "\n" +:+ rawC.
Proof. vm_compute. reflexivity. Qed.

(** ** The severity reduction *)

Section Severity.

Implicit Types (e : entry) (entries : list entry) (worst : string * Z).

Lemma color_precedence_lookup (c : string) :
  color_precedence !! c =
    if decide (c = "red") then Some 2
    else if decide (c = "yellow") then Some 1
    else if decide (c = "green") then Some 0
    else None.
Proof.
  unfold color_precedence. rewrite !lookup_insert, lookup_empty.
  repeat case_decide; congruence.
Qed.

Lemma status_map_lookup (c : string) :
  status_map !! c =
    if decide (c = "green") then Some (0, "OK")
    else if decide (c = "yellow") then Some (1, "WARN")
    else if decide (c = "red") then Some (2, "CRIT")
    else None.
Proof.
  unfold status_map. rewrite !lookup_insert, lookup_empty.
  repeat case_decide; congruence.
Qed.

Lemma level_cases e :
  (entry_color e = "red" ∧ level e = 2) ∨
  (entry_color e = "yellow" ∧ level e = 1) ∨
  (entry_color e = "green" ∧ level e = 0) ∨
  (color_precedence !! entry_color e = None ∧ level e = 0 ∧
   entry_color e ≠ "red" ∧ entry_color e ≠ "yellow" ∧
   entry_color e ≠ "green").
Proof.
  unfold level. rewrite color_precedence_lookup.
  repeat case_decide; simpl; auto 10.
Qed.

Lemma level_range e : 0 ≤ level e ≤ 2.
Proof. destruct (level_cases e) as [?|[?|[?|?]]]; lia. Qed.

Lemma max_level_range entries : 0 ≤ max_level entries ≤ 2.
Proof.
  induction entries as [|e entries IH]; unfold max_level in *; simpl; [lia|].
  pose proof (level_range e). lia.
Qed.

Lemma max_level_ge entries e : e ∈ entries → level e ≤ max_level entries.
Proof.
  unfold max_level. induction 1; simpl; lia.
Qed.

Lemma max_level_attained entries :
  max_level entries = 0 ∨ ∃ e, e ∈ entries ∧ level e = max_level entries.
Proof.
  induction entries as [|e entries IH]; [by left|].
  change (max_level (e :: entries))
    with (Z.max (level e) (max_level entries)).
  destruct (Z.max_spec (level e) (max_level entries))
    as [[_ ->]|[_ ->]].
  - destruct IH as [?|(e' & ? & ?)]; [by left|].
    right. exists e'. split; [by apply list_elem_of_further|done].
  - right. exists e. split; [apply list_elem_of_here|done].
Qed.

Lemma max_level_perm entries entries' :
  entries ≡ₚ entries' → max_level entries = max_level entries'.
Proof.
  unfold max_level. induction 1; simpl; lia.
Qed.

Lemma max_level_app entries entries' :
  max_level (entries ++ entries') =
    Z.max (max_level entries) (max_level entries').
Proof.
  pose proof (max_level_range entries').
  unfold max_level in *. induction entries; simpl; lia.
Qed.

(** One turn of the loop keeps the pair in step with the highest level seen
    so far. *)
Lemma worst_step_level (l : Z) e :
  0 ≤ l ≤ 2 →
  worst_step (color_at l, l) e =
    (color_at (Z.max l (level e)), Z.max l (level e)).
Proof.
  intros Hl. assert (l = 0 ∨ l = 1 ∨ l = 2) as Hcases by lia.
  unfold worst_step. simpl.
  destruct (level_cases e) as [[Hc Hv]|[[Hc Hv]|[[Hc Hv]|(Hc & Hv & _)]]];
    rewrite Hv, ?Hc; destruct Hcases as [->|[-> | ->]]; reflexivity.
Qed.

Lemma foldl_worst_step (l : Z) entries :
  0 ≤ l ≤ 2 →
  foldl worst_step (color_at l, l) entries =
    (color_at (Z.max l (max_level entries)), Z.max l (max_level entries)).
Proof.
  revert l. induction entries as [|e entries IH]; intros l Hl.
  - unfold max_level. simpl. by replace (Z.max l 0) with l by lia.
  - simpl. rewrite worst_step_level by done.
    pose proof (level_range e). rewrite IH by lia.
    unfold max_level. simpl. by rewrite Z.max_assoc.
Qed.

(** The loop returns the colour of the highest level, together with that
    level. *)
Lemma worst_color_max entries :
  worst_color entries = (color_at (max_level entries), max_level entries).
Proof.
  pose proof (max_level_range entries).
  unfold worst_color. change ("green", 0) with (color_at 0, 0).
  rewrite foldl_worst_step by lia.
  by replace (Z.max 0 (max_level entries)) with (max_level entries) by lia.
Qed.

Lemma overall_color_max entries :
  overall_color entries = color_at (max_level entries).
Proof. unfold overall_color. by rewrite worst_color_max. Qed.

Lemma status_of_max entries :
  status_of entries =
    if bool_decide (max_level entries = 2) then (2, "CRIT")
    else if bool_decide (max_level entries = 1) then (1, "WARN")
    else (0, "OK").
Proof.
  unfold status_of. rewrite overall_color_max, status_map_lookup.
  unfold color_at. by repeat case_bool_decide.
Qed.

Lemma status_code_max entries : status_code entries = max_level entries.
Proof.
  pose proof (max_level_range entries).
  unfold status_code. rewrite status_of_max.
  repeat case_bool_decide; simpl; lia.
Qed.

End Severity.

(** ** The overall colour and the status code *)

Lemma level_red (e : entry) : entry_color e = "red" → level e = 2.
Proof. unfold level. by intros ->. Qed.

Lemma level_yellow (e : entry) : entry_color e = "yellow" → level e = 1.
Proof. unfold level. by intros ->. Qed.

Lemma level_green (e : entry) : entry_color e = "green" → level e = 0.
Proof. unfold level. by intros ->. Qed.

Lemma level_2_red (e : entry) : level e = 2 → entry_color e = "red".
Proof. destruct (level_cases e) as [?|[?|[?|?]]]; intros; intuition lia. Qed.

Lemma level_1_yellow (e : entry) : level e = 1 → entry_color e = "yellow".
Proof. destruct (level_cases e) as [?|[?|[?|?]]]; intros; intuition lia. Qed.

Lemma max_level_red (entries : list entry) :
  max_level entries = 2 ↔ ∃ e, e ∈ entries ∧ entry_color e = "red".
Proof.
  split.
  - intros H2. destruct (max_level_attained entries) as [?|(e & He & Hl)];
      [lia|]. exists e. split; [done|]. apply level_2_red. lia.
  - intros (e & He & Hc). pose proof (max_level_ge _ _ He).
    pose proof (max_level_range entries). rewrite (level_red _ Hc) in *. lia.
Qed.

Lemma max_level_yellow (entries : list entry) :
  max_level entries = 1 ↔
    (∃ e, e ∈ entries ∧ entry_color e = "yellow") ∧
    (∀ e, e ∈ entries → entry_color e ≠ "red").
Proof.
  split.
  - intros H1. split.
    + destruct (max_level_attained entries) as [?|(e & He & Hl)]; [lia|].
      exists e. split; [done|]. apply level_1_yellow. lia.
    + intros e He Hc. pose proof (max_level_ge _ _ He).
      rewrite (level_red _ Hc) in *. lia.
  - intros [(e & He & Hc) Hnored].
    pose proof (max_level_ge _ _ He). rewrite (level_yellow _ Hc) in *.
    pose proof (max_level_range entries).
    destruct (decide (max_level entries = 2)) as [H2|]; [|lia].
    apply max_level_red in H2 as (e' & He' & Hc'). by destruct (Hnored e').
Qed.

(** C1.  The reduction returns the highest colour of the block.  If some
    entry has the colour red (its [color] attribute, [green] when absent,
    in lower case) the overall colour is red and the status code 2.  If some
    entry is yellow and none is red, the overall colour is yellow and the
    status code 1.  The result does not change when the entries are put in
    another order, nor when a green entry is added anywhere. *)
Theorem severity_is_maximum (entries : list entry) :
  ((∃ e, e ∈ entries ∧ entry_color e = "red") →
     overall_color entries = "red" ∧ status_code entries = 2) ∧
  ((∃ e, e ∈ entries ∧ entry_color e = "yellow") →
   (∀ e, e ∈ entries → entry_color e ≠ "red") →
     overall_color entries = "yellow" ∧ status_code entries = 1) ∧
  (∀ entries', entries ≡ₚ entries' →
     worst_color entries' = worst_color entries ∧
     status_code entries' = status_code entries) ∧
  (∀ before after g, entries = before ++ after → entry_color g = "green" →
     worst_color (before ++ g :: after) = worst_color entries ∧
     status_code (before ++ g :: after) = status_code entries).
Proof.
  repeat split.
  - apply max_level_red in H. by rewrite overall_color_max, H.
  - apply max_level_red in H. by rewrite status_code_max.
  - assert (max_level entries = 1) as Hm by by apply max_level_yellow.
    by rewrite overall_color_max, Hm.
  - rewrite status_code_max. by apply max_level_yellow.
  - rewrite !worst_color_max. by rewrite (max_level_perm _ _ H).
  - rewrite !status_code_max. by rewrite (max_level_perm _ _ H).
  - subst entries. rewrite !worst_color_max.
    rewrite !max_level_app. change (max_level (g :: after))
      with (Z.max (level g) (max_level after)).
    rewrite (level_green _ H0). pose proof (max_level_range after).
    by replace (Z.max 0 (max_level after)) with (max_level after) by lia.
  - subst entries. rewrite !status_code_max.
    rewrite !max_level_app. change (max_level (g :: after))
      with (Z.max (level g) (max_level after)).
    rewrite (level_green _ H0). pose proof (max_level_range after). lia.
Qed.

Lemma severity_is_maximum_witness :
  (overall_color [entryA; entryB; entryC] = "red" ∧
   status_code [entryA; entryB; entryC] = 2) ∧
  (overall_color [entryC; entryA] = "yellow" ∧
   status_code [entryC; entryA] = 1).
Proof.
  split.
  - apply (proj1 (severity_is_maximum [entryA; entryB; entryC])).
    exists entryB. split; [|reflexivity].
    apply list_elem_of_further, list_elem_of_here.
  - apply (proj1 (proj2 (severity_is_maximum [entryC; entryA]))).
    + exists entryC. split; [apply list_elem_of_here|reflexivity].
    + intros e He. apply elem_of_cons in He as [->|He]; [done|].
      apply elem_of_cons in He as [->|He]; [done|].
      by apply elem_of_nil in He.
Defined.

(** C9.  Whatever the entries, the overall colour is green, yellow or red;
    the status map has it; the status code is 0, 1 or 2; and the line
    printed on this path begins with that digit.  The default
    [(3, 'UNKNOWN')] of the lookup is never used. *)
Theorem unknown_fallback_unreachable (entries : list entry) :
  (overall_color entries = "green" ∨ overall_color entries = "yellow" ∨
   overall_color entries = "red") ∧
  status_map !! overall_color entries = Some (status_of entries) ∧
  (status_of entries = (0, "OK") ∨ status_of entries = (1, "WARN") ∨
   status_of entries = (2, "CRIT")) ∧
  (status_code entries = 0 ∨ status_code entries = 1 ∨
   status_code entries = 2) ∧
  (∀ timestamp, ∃ digit,
     (digit = "0" ∨ digit = "1" ∨ digit = "2") ∧
     report entries timestamp =
       digit +:+ " " +:+ SERVICE +:+ " - " +:+ final_output entries timestamp).
Proof.
  pose proof (max_level_range entries) as Hr.
  assert (max_level entries = 0 ∨ max_level entries = 1 ∨
          max_level entries = 2) as Hm by lia.
  unfold report. rewrite status_code_max. unfold status_of.
  rewrite overall_color_max.
  destruct Hm as [->|[-> | ->]]; (repeat split; [auto..|]);
    intros; eexists; (split; [|reflexivity]); auto.
Qed.

(** ** The healthy report *)

Lemma max_level_zero (entries : list entry) :
  max_level entries = 0 ↔ ∀ e, e ∈ entries → level e = 0.
Proof.
  split.
  - intros H0 e He. pose proof (max_level_ge _ _ He).
    pose proof (level_range e). lia.
  - intros Hall. destruct (max_level_attained entries) as [?|(e & He & Hl)];
      [done|]. rewrite <- Hl. by apply Hall.
Qed.

Lemma problems_ok (entries : list entry) :
  max_level entries = 0 → problems entries = [].
Proof.
  intros H0. unfold problems. rewrite status_code_max, H0.
  by rewrite bool_decide_false by lia.
Qed.

Lemma report_ok (entries : list entry) (timestamp : string) :
  max_level entries = 0 → report entries timestamp = ok_line timestamp.
Proof.
  intros H0. unfold report, final_output, problem_lines_raw.
  rewrite problems_ok by done. unfold output_summary, status_text.
  rewrite status_code_max, status_of_max, overall_color_max, H0.
  reflexivity.
Qed.

(** On the path without error, [main] prints the report of the entries of
    the block. *)
Lemma main_report (run : tail_outcome) (block : list string) (ts : string) :
  get_latest_log_block run = (Some block, Some ts, None) →
  collect_entries block ≠ [] →
  main run = report (collect_entries block) ts.
Proof.
  intros Hrun Hne. unfold main. rewrite Hrun.
  destruct block as [|line block]; [by destruct Hne|].
  change (truthy_opt None) with false.
  change (nonempty_opt (Some (line :: block))) with true.
  change (default [] (Some (line :: block))) with (line :: block).
  change (format_opt (Some ts)) with ts.
  cbv iota beta. change (negb true) with false. cbv iota.
  by destruct (collect_entries (line :: block)).
Qed.

(** C4.  When every entry of the block has the colour green (its [color]
    attribute in lower case, [green] when absent), the overall colour is
    green, the status code is 0, no problem is collected, and the line
    printed is exactly
    [0 "Splunk Health" - OK: Overall status is GREEN (Log Time: ts)], with
    neither an issues section nor detail lines.  [main] prints that line
    whenever such entries come from the selected block. *)
Theorem all_green_report (entries : list entry) (timestamp : string) :
  (∀ e, e ∈ entries → entry_color e = "green") →
  overall_color entries = "green" ∧
  status_code entries = 0 ∧
  problem_lines_raw entries = [] ∧
  final_output entries timestamp =
    "OK: Overall status is GREEN (Log Time: " +:+ timestamp +:+ ")" ∧
  report entries timestamp =
    "0 " +:+ SERVICE +:+ " - OK: Overall status is GREEN (Log Time: "
      +:+ timestamp +:+ ")" ∧
  (∀ run block,
     get_latest_log_block run = (Some block, Some timestamp, None) →
     collect_entries block = entries → entries ≠ [] →
     main run =
       "0 " +:+ SERVICE +:+ " - OK: Overall status is GREEN (Log Time: "
         +:+ timestamp +:+ ")").
Proof.
  intros Hgreen.
  assert (max_level entries = 0) as H0.
  { apply max_level_zero. intros e He. by apply level_green, Hgreen. }
  repeat split.
  - by rewrite overall_color_max, H0.
  - by rewrite status_code_max.
  - unfold problem_lines_raw. by rewrite problems_ok.
  - unfold final_output, problem_lines_raw. rewrite problems_ok by done.
    unfold output_summary, status_text.
    by rewrite status_of_max, overall_color_max, H0.
  - by rewrite report_ok.
  - intros run block Hrun <- Hne. rewrite (main_report _ _ _ Hrun Hne).
    by rewrite report_ok.
Qed.

Lemma all_green_report_witness :
  report [entryA; entryA] T2 =
    "0 " +:+ SERVICE +:+ " - OK: Overall status is GREEN (Log Time: "
      +:+ T2 +:+ ")".
Proof.
  apply (all_green_report [entryA; entryA] T2).
  intros e He. apply elem_of_cons in He as [->|He]; [done|].
  apply elem_of_cons in He as [->|He]; [done|].
  by apply elem_of_nil in He.
Defined.

(** ** Colours outside the table *)

Lemma level_unrecognized (e : entry) : unrecognized e → level e = 0.
Proof.
  intros (Hg & Hy & Hr).
  destruct (level_cases e) as [[? _]|[[? _]|[[? _]|(_ & ? & _)]]]; done.
Qed.

Lemma status_positive (entries : list entry) :
  status_code entries > 0 ↔
    ∃ e, e ∈ entries ∧ (entry_color e = "yellow" ∨ entry_color e = "red").
Proof.
  rewrite status_code_max. pose proof (max_level_range entries). split.
  - intros Hpos. destruct (max_level_attained entries) as [?|(e & He & Hl)];
      [lia|]. exists e. split; [done|].
    destruct (level_cases e) as [[? _]|[[? _]|[[_ ?]|(_ & ? & _)]]];
      auto; lia.
  - intros (e & He & Hc). pose proof (max_level_ge _ _ He) as Hge.
    destruct Hc as [Hc|Hc];
      [rewrite (level_yellow _ Hc) in Hge|rewrite (level_red _ Hc) in Hge];
      lia.
Qed.

Lemma elem_of_problems (entries : list entry) (e : entry) :
  e ∈ problems entries ↔
    status_code entries > 0 ∧ e ∈ entries ∧ entry_color e ≠ "green".
Proof.
  unfold problems. case_bool_decide as Hpos.
  - rewrite list_elem_of_In, filter_In, <- list_elem_of_In.
    unfold is_problem. rewrite negb_true_iff, bool_decide_eq_false.
    split; [intros [? ?]; auto|intros (_ & ? & ?); auto].
  - rewrite elem_of_nil. split; [done|intros [? _]; done].
Qed.

(** C10.  When every entry has a colour that is neither green, yellow nor
    red, the report is the healthy one: status code 0, no problem collected,
    the line printed is the OK line, with no issues section and no detail
    lines.  An entry with such a colour is among the problems exactly when
    some entry with the colour yellow or red, which is then another entry,
    makes the status code positive. *)
Theorem unrecognized_colors_alone_are_ok (entries : list entry)
    (timestamp : string) :
  ((∀ e, e ∈ entries → unrecognized e) →
     status_code entries = 0 ∧
     problem_lines_raw entries = [] ∧
     report entries timestamp = ok_line timestamp) ∧
  (∀ e, e ∈ entries → unrecognized e →
     (e ∈ problems entries ↔
        ∃ e', e' ∈ entries ∧ e' ≠ e ∧ status_code entries > 0 ∧
              (entry_color e' = "yellow" ∨ entry_color e' = "red"))).
Proof.
  split.
  - intros Hall.
    assert (max_level entries = 0) as H0.
    { apply max_level_zero. intros e He. by apply level_unrecognized, Hall. }
    repeat split.
    + by rewrite status_code_max.
    + unfold problem_lines_raw. by rewrite problems_ok.
    + by apply report_ok.
  - intros e He (Hg & Hy & Hr). rewrite elem_of_problems. split.
    + intros (Hpos & _ & _).
      pose proof Hpos as Hpos'. apply status_positive in Hpos'.
      destruct Hpos' as (e' & He' & Hc').
      exists e'. repeat split; [done| |done..].
      intros ->. by destruct Hc'.
    + intros (e' & _ & _ & Hpos & _). done.
Qed.

Lemma unrecognized_colors_alone_are_ok_witness :
  (status_code [entryBlue] = 0 ∧
   problem_lines_raw [entryBlue] = [] ∧
   report [entryBlue] T2 = ok_line T2) ∧
  (entryBlue ∈ problems [entryBlue; entryC] ↔
     ∃ e', e' ∈ [entryBlue; entryC] ∧ e' ≠ entryBlue ∧
           status_code [entryBlue; entryC] > 0 ∧
           (entry_color e' = "yellow" ∨ entry_color e' = "red")).
Proof.
  split.
  - apply (proj1 (unrecognized_colors_alone_are_ok [entryBlue] T2)).
    intros e He. apply elem_of_cons in He as [->|He]; [done|].
    by apply elem_of_nil in He.
  - apply (proj2 (unrecognized_colors_alone_are_ok [entryBlue; entryC] T2)).
    + apply list_elem_of_here.
    + done.
Defined.

(** ** Failure of the tail command *)

(** C3, as the specification words it, fails: the message is not printed
    right after the dash. *)
Lemma specified_tail_line_fails :
  main (Completed 1 "" "tail: cannot open the log") ≠
    "3 " +:+ SERVICE
      +:+ " - Error running 'tail' command: tail: cannot open the log".
Proof. vm_compute. discriminate. Qed.

(** C3, amended.  When the tail utility returns a non-zero code with the
    text [stderr] on its error stream, the line printed is
    [3 "Splunk Health" - UNKNOWN: Error running 'tail' command: stderr]:
    status code 3, the quoted service name, the word UNKNOWN and a colon,
    then the tail error message. *)
Theorem tail_failure_line (returncode : Z) (stdout stderr : string) :
  returncode ≠ 0 →
  main (Completed returncode stdout stderr) =
    "3 " +:+ SERVICE +:+ " - UNKNOWN: Error running 'tail' command: "
      +:+ stderr.
Proof.
  intros Hrc. unfold main, get_latest_log_block.
  by rewrite bool_decide_true.
Qed.

Lemma tail_failure_line_witness :
  main (Completed 1 "" "tail: cannot open the log") =
    "3 " +:+ SERVICE +:+ " - UNKNOWN: Error running 'tail' command: "
      +:+ "tail: cannot open the log".
Proof. apply tail_failure_line. lia. Defined.

(** ** Strings *)

Lemma app_cons (c : ascii) (s t : string) :
  String c s +:+ t = String c (s +:+ t).
Proof. reflexivity. Qed.

Lemma app_empty_l (t : string) : "" +:+ t = t.
Proof. reflexivity. Qed.

Lemma app_assoc_str (s t u : string) : (s +:+ t) +:+ u = s +:+ t +:+ u.
Proof. induction s as [|c s IH]; [done|]. by rewrite !app_cons, IH. Qed.

Lemma app_length_str (s t : string) :
  String.length (s +:+ t) = (String.length s + String.length t)%nat.
Proof. induction s as [|c s IH]; [done|]. rewrite app_cons. simpl. lia. Qed.

Lemma startswith_app (p s : string) : startswith p (p +:+ s) = true.
Proof.
  induction p as [|c p IH]; [done|]. rewrite app_cons. simpl.
  by rewrite bool_decide_true.
Qed.

Lemma startswith_inv (p s : string) :
  startswith p s = true → ∃ r, s = p +:+ r.
Proof.
  revert s. induction p as [|c p IH]; intros s Hs.
  - by exists s.
  - destruct s as [|b s]; [done|]. simpl in Hs.
    apply andb_true_iff in Hs as [Hc Hs]. apply bool_decide_eq_true in Hc.
    destruct (IH _ Hs) as [r ->]. exists r. by rewrite Hc.
Qed.

Lemma startswith_same_length (p q r : string) :
  String.length p = String.length q →
  startswith p (q +:+ r) = true → p = q.
Proof.
  revert q. induction p as [|c p IH]; intros [|d q] Hlen Hs; try done.
  rewrite app_cons in Hs. simpl in Hs.
  apply andb_true_iff in Hs as [Hc Hs]. apply bool_decide_eq_true in Hc.
  simpl in Hlen. f_equal; [done|]. apply IH; [lia|done].
Qed.

(** ** The timestamp at the start of a line *)

Lemma match_classes_length (pat : list Re.cls) (s m : string) :
  Re.match_classes pat s = Some m → String.length m = length pat.
Proof.
  revert s m. induction pat as [|k pat IH]; intros s m Hm; simpl in Hm.
  - by inversion Hm.
  - destruct s as [|c s]; [done|]. destruct (Re.accepts k c); [|done].
    destruct (Re.match_classes pat s) as [m'|] eqn:Hm'; [|done].
    inversion Hm. simpl. by rewrite (IH _ _ Hm').
Qed.

Lemma match_classes_prefix (pat : list Re.cls) (s m : string) :
  Re.match_classes pat s = Some m → ∃ r, s = m +:+ r.
Proof.
  revert s m. induction pat as [|k pat IH]; intros s m Hm; simpl in Hm.
  - inversion Hm. by exists s.
  - destruct s as [|c s]; [done|]. destruct (Re.accepts k c); [|done].
    destruct (Re.match_classes pat s) as [m'|] eqn:Hm'; [|done].
    inversion Hm. destruct (IH _ _ Hm') as [r ->]. by exists r.
Qed.

Lemma match_classes_app (pat : list Re.cls) (m r : string) :
  Re.match_classes pat m = Some m →
  Re.match_classes pat (m +:+ r) = Some m.
Proof.
  revert m. induction pat as [|k pat IH]; intros m Hm; simpl in Hm.
  - by inversion Hm.
  - destruct m as [|c m]; [done|]. rewrite app_cons. simpl.
    destruct (Re.accepts k c); [|done].
    destruct (Re.match_classes pat m) as [m'|] eqn:Hm'; [|done].
    assert (m' = m) as -> by by inversion Hm. by rewrite (IH _ Hm').
Qed.

Lemma match_timestamp_startswith (line ts : string) :
  Re.match_timestamp line = Some ts → startswith ts line = true.
Proof.
  intros Hm. destruct (match_classes_prefix _ _ _ Hm) as [r ->].
  apply startswith_app.
Qed.

(** ** Block selection *)

Lemma collect_block_spec (ts : string) (reversed_lines acc : list string) :
  ∃ taken rest,
    reversed_lines = taken ++ rest ∧
    Forall (λ l, startswith ts l = true) taken ∧
    (∀ l, head rest = Some l → startswith ts l = false) ∧
    collect_block ts reversed_lines acc = reverse taken ++ acc.
Proof.
  revert acc. induction reversed_lines as [|line more IH]; intros acc.
  - exists [], []. by repeat split.
  - simpl. destruct (startswith ts line) eqn:Hline.
    + destruct (IH (line :: acc)) as (taken & rest & -> & Hall & Hrest & ->).
      exists (line :: taken), rest. repeat split; [by constructor|done|].
      by rewrite reverse_cons, <- app_assoc.
    + exists [], (line :: more). repeat split; [by constructor|].
      intros l Hl. by inversion Hl; subst.
Qed.

Lemma Forall_suffix_after_mismatch (P : string → Prop)
    (older block l1 l2 : list string) (x : string) :
  older ++ block = l1 ++ x :: l2 → Forall P block → ¬ P x →
  ∃ mid, l2 = mid ++ block.
Proof.
  revert l1. induction older as [|o older IH]; intros l1 Heq Hall Hx.
  - simpl in Heq. subst block. apply Forall_app in Hall as [_ Hall].
    by inversion Hall.
  - destruct l1 as [|y l1]; simpl in Heq.
    + exists older. by inversion Heq.
    + inversion Heq; subst. by apply (IH l1).
Qed.

(** The selected block of a non-empty filtered sequence whose last line
    starts with a timestamp. *)
Lemma select_block_spec (lines : list string) (last_line ts : string) :
  last lines = Some last_line →
  Re.match_timestamp last_line = Some ts →
  ∃ older block,
    select_block lines = (Some block, Some ts, None) ∧
    lines = older ++ block ∧
    last block = Some last_line ∧
    Forall (λ l, startswith ts l = true) block ∧
    (∀ l, last older = Some l → startswith ts l = false).
Proof.
  intros Hlast Hts. unfold select_block. rewrite Hlast, Hts.
  destruct (collect_block_spec ts (reverse lines) [])
    as (taken & rest & Hrev & Hall & Hrest & ->).
  rewrite app_nil_r. exists (reverse rest), (reverse taken).
  assert (lines = reverse rest ++ reverse taken) as Hlines.
  { by rewrite <- reverse_app, <- Hrev, reverse_involutive. }
  assert (last (reverse taken) = Some last_line) as Htaken.
  { destruct taken as [|t taken].
    - simpl in Hrev. subst rest. rewrite head_reverse in Hrest.
      specialize (Hrest _ Hlast).
      by rewrite (match_timestamp_startswith _ _ Hts) in Hrest.
    - rewrite Hlines, last_app in Hlast.
      by rewrite reverse_cons, last_snoc in *. }
  repeat split; [done|done| |].
  - by apply Forall_reverse.
  - intros l Hl. apply Hrest. by rewrite last_reverse in Hl.
Qed.

(** C2.  For a filtered sequence whose last line starts with a timestamp,
    the block returned is the longest run of lines at the end of the
    sequence that start with that timestamp: the sequence is some older
    lines followed by the block, in the same order; the block holds the last
    line, and each of its lines starts with the timestamp; the line just
    before the block, if any, does not; and a line that comes before some
    line not starting with the timestamp is outside the block, whatever its
    own start.  For lines stamped [t1, t1, t2, t2, t2] with [t1] and [t2]
    two different timestamps, the block is the three [t2] lines. *)
Theorem block_is_maximal_trailing_run :
  (∀ (lines : list string) (last_line ts : string),
     last lines = Some last_line →
     Re.match_timestamp last_line = Some ts →
     ∃ older block,
       select_block lines = (Some block, Some ts, None) ∧
       lines = older ++ block ∧
       block ≠ [] ∧ last block = Some last_line ∧
       (∀ l, l ∈ block → startswith ts l = true) ∧
       (∀ l, last older = Some l → startswith ts l = false) ∧
       (∀ l1 x l2, lines = l1 ++ x :: l2 → startswith ts x = false →
                   ∃ mid, l2 = mid ++ block)) ∧
  (∀ t1 t2 a b c d e : string,
     Re.match_timestamp t1 = Some t1 →
     Re.match_timestamp t2 = Some t2 →
     t1 ≠ t2 →
     select_block [t1 +:+ a; t1 +:+ b; t2 +:+ c; t2 +:+ d; t2 +:+ e] =
       (Some [t2 +:+ c; t2 +:+ d; t2 +:+ e], Some t2, None)).
Proof.
  split.
  - intros lines last_line ts Hlast Hts.
    destruct (select_block_spec _ _ _ Hlast Hts)
      as (older & block & Hsel & Hlines & Hlb & Hall & Hold).
    exists older, block. repeat split; [done|done| |done| |done|].
    + intros ->. done.
    + by apply Forall_forall.
    + intros l1 x l2 Hsplit Hx. rewrite Hlines in Hsplit.
      apply (Forall_suffix_after_mismatch _ _ _ _ _ _ Hsplit Hall).
      by rewrite Hx.
  - intros t1 t2 a b c d e H1 H2 Hne. unfold select_block.
    change (last [t1 +:+ a; t1 +:+ b; t2 +:+ c; t2 +:+ d; t2 +:+ e])
      with (Some (t2 +:+ e)).
    unfold Re.match_timestamp in *. rewrite (match_classes_app _ _ _ H2).
    change (reverse [t1 +:+ a; t1 +:+ b; t2 +:+ c; t2 +:+ d; t2 +:+ e])
      with [t2 +:+ e; t2 +:+ d; t2 +:+ c; t1 +:+ b; t1 +:+ a].
    simpl. rewrite !startswith_app.
    destruct (startswith t2 (t1 +:+ b)) eqn:Hs; [|done].
    apply startswith_same_length in Hs; [by subst|].
    by rewrite (match_classes_length _ _ _ H1),
      (match_classes_length _ _ _ H2).
Qed.

Lemma block_is_maximal_trailing_run_witness :
  (∃ older block,
     select_block five_lines = (Some block, Some T2, None) ∧
     five_lines = older ++ block ∧
     block ≠ [] ∧ last block = Some (log_line T2 rawC) ∧
     (∀ l, l ∈ block → startswith T2 l = true) ∧
     (∀ l, last older = Some l → startswith T2 l = false) ∧
     (∀ l1 x l2, five_lines = l1 ++ x :: l2 → startswith T2 x = false →
                 ∃ mid, l2 = mid ++ block)) ∧
  select_block [T1 +:+ "a"; T1 +:+ "b"; T2 +:+ "c"; T2 +:+ "d"; T2 +:+ "e"] =
    (Some [T2 +:+ "c"; T2 +:+ "d"; T2 +:+ "e"], Some T2, None).
Proof.
  split.
  - apply (proj1 block_is_maximal_trailing_run five_lines); reflexivity.
  - apply (proj2 block_is_maximal_trailing_run);
      [reflexivity|reflexivity|discriminate].
Defined.

Example five_lines_block :
  select_block five_lines =
    (Some [log_line T2 rawA; log_line T2 rawB; log_line T2 rawC],
     Some T2, None).
Proof. reflexivity. Qed.

(** ** The attribute pattern is a scan *)

Lemma span_eq (p : ascii → bool) (s : string) :
  s = (Re.span p s).1 +:+ (Re.span p s).2.
Proof.
  induction s as [|c s IH]; [done|]. simpl. destruct (p c); [|done].
  destruct (Re.span p s) as [a b]. simpl in *. by rewrite app_cons, <- IH.
Qed.

Lemma span_stops (p : ascii → bool) (s : string) :
  stops p (Re.span p s).2 = true.
Proof.
  induction s as [|c s IH]; [done|]. simpl. destruct (p c) eqn:Hc.
  - by destruct (Re.span p s) as [a b].
  - simpl. by rewrite Hc.
Qed.

Lemma consumed_app (a b : string) : Re.consumed (a +:+ b) b = a.
Proof.
  unfold Re.consumed. rewrite app_length_str.
  replace (String.length a + String.length b - String.length b)%nat
    with (String.length a) by lia.
  induction a as [|c a IH]; [by destruct b|].
  rewrite app_cons. simpl. by rewrite IH.
Qed.

Lemma consumed_span (p : ascii → bool) (s : string) :
  Re.consumed s (Re.span p s).2 = (Re.span p s).1.
Proof. rewrite (span_eq p s) at 1. apply consumed_app. Qed.

(** A greedy repetition ends at the end of the longest run as soon as the
    rest of the pattern succeeds there, or fails wherever the run could be
    cut short. *)
Lemma star_span (p : ascii → bool) (s : string) (g : Re.groups)
    (k : Re.continuation) :
  is_Some (k (Re.span p s).2 g) ∨
    (∀ c t, p c = true → k (String c t) g = None) →
  Re.star p s g k = k (Re.span p s).2 g.
Proof.
  induction s as [|c s IH]; [done|]. simpl. destruct (p c) eqn:Hc; [|done].
  destruct (Re.span p s) as [a b]. simpl in *. intros Hk.
  rewrite (IH Hk). destruct (k b g) as [r|] eqn:Hb; [done|].
  destruct Hk as [[r Hr]|Hk]; [done|]. by apply Hk.
Qed.

Lemma exec_plus (p : ascii → bool) (s : string) (g : Re.groups)
    (k : Re.continuation) :
  is_Some (k (Re.span p s).2 g) ∨
    (∀ c t, p c = true → k (String c t) g = None) →
  Re.exec (Re.Plus p) s g k =
    if truthy (Re.span p s).1 then k (Re.span p s).2 g else None.
Proof.
  destruct s as [|c s]; [done|]. simpl. destruct (p c) eqn:Hc; [|done].
  intros Hk. rewrite star_span.
  - by destruct (Re.span p s) as [a b].
  - by destruct (Re.span p s) as [a b].
Qed.

Lemma is_word_not_equals (c : ascii) :
  is_word c = true → Re.char "=" c = false.
Proof. by destruct c as [[] [] [] [] [] [] [] []]. Qed.

Lemma exec_quoted (s : string) (g : Re.groups) (k : Re.continuation) :
  Re.exec (Re.Cat (Re.Chr (Re.char DQ_char))
             (Re.Cat (Re.Group 3 (Re.Star Re.not_quote))
                (Re.Chr (Re.char DQ_char)))) s g k =
    match Re.quoted_value s with
    | Some (v, rest) => k rest (<[3%nat := v]> g)
    | None => None
    end.
Proof.
  destruct s as [|e s]; [done|]. simpl. unfold Re.char at 1.
  destruct (bool_decide (e = DQ_char)); [|done].
  rewrite star_span.
  - rewrite consumed_span. pose proof (span_stops Re.not_quote s) as Hstop.
    destruct (Re.span Re.not_quote s) as [v r]. simpl in *.
    destruct r as [|f r]; [done|]. simpl in Hstop.
    unfold Re.not_quote in Hstop. rewrite negb_involutive in Hstop.
    unfold Re.char. by rewrite Hstop.
  - right. intros c t Hc. unfold Re.not_quote in Hc.
    apply negb_true_iff in Hc. unfold Re.char. by rewrite Hc.
Qed.

Lemma exec_token (s : string) (g : Re.groups) (k : Re.continuation) :
  (∀ rest g', is_Some (k rest g')) →
  Re.exec (Re.Group 4 (Re.Plus Re.token_char)) s g k =
    match Re.token_value s with
    | Some (v, rest) => k rest (<[4%nat := v]> g)
    | None => None
    end.
Proof.
  intros Hk. change (Re.exec (Re.Group 4 (Re.Plus Re.token_char)) s g k)
    with (Re.exec (Re.Plus Re.token_char) s g
            (λ s1 g1, k s1 (<[4%nat := Re.consumed s s1]> g1))).
  rewrite exec_plus by (left; apply Hk). rewrite consumed_span.
  unfold Re.token_value. destruct (Re.span Re.token_char s) as [v r].
  simpl. by destruct (truthy v).
Qed.

(** The backtracking matcher and the scan agree on every text. *)
Lemma match_at_scan (s : string) : Re.match_at s = Re.match_here s.
Proof.
  unfold Re.match_at, Re.match_here, Re.attribute_pattern.
  change (Re.exec (Re.Cat (Re.Group 1 (Re.Plus is_word)) ?r) s ∅ ?k)
    with (Re.exec (Re.Plus is_word) s ∅
            (λ s1 g1, Re.exec r s1 (<[1%nat := Re.consumed s s1]> g1) k)).
  rewrite exec_plus.
  2:{ right. intros c t Hc. simpl. by rewrite (is_word_not_equals _ Hc). }
  rewrite consumed_span. destruct (Re.span is_word s) as [key s1].
  simpl fst; simpl snd. destruct (truthy key); [|done].
  destruct s1 as [|d s2]; [done|].
  destruct (decide (d = "="%char)) as [->|Hd].
  2:{ assert (Re.char "=" d = false) as Hd'
        by (unfold Re.char; by rewrite bool_decide_false).
      simpl. rewrite Hd'.
      by destruct d as [[] [] [] [] [] [] [] []]. }
  change (Re.exec (Re.Cat (Re.Chr (Re.char "=")) (Re.Group 2 (Re.Alt ?a ?b)))
            (String "="%char s2) ?g ?k)
    with (match Re.exec a s2 g
                  (λ s3 g3, k s3 (<[2%nat := Re.consumed s2 s3]> g3)) with
          | Some x => Some x
          | None => Re.exec b s2 g
                      (λ s3 g3, k s3 (<[2%nat := Re.consumed s2 s3]> g3))
          end).
  rewrite exec_quoted, exec_token by (intros; by eexists).
  destruct (Re.quoted_value s2) as [[v rest]|] eqn:Hq.
  - by rewrite lookup_insert_ne, lookup_insert_ne, lookup_insert_eq,
      lookup_insert_ne, lookup_insert_eq.
  - destruct (Re.token_value s2) as [[v rest]|]; [|done].
    by rewrite lookup_insert_ne, lookup_insert_ne, lookup_insert_eq,
      lookup_insert_ne, lookup_insert_ne, lookup_insert_ne, lookup_empty,
      lookup_insert_ne, lookup_insert_eq.
Qed.

(** A later occurrence of a key replaces the earlier one; a value may be
    empty between quotes; a quote that is never closed starts no match; a
    value without quotes ends at a quote. *)
Example parse_repeated_key :
  parse_attributes "color=green color=red" = {["color" := "red"]}.
Proof. by vm_compute. Qed.

Example parse_empty_value :
  Re.finditer ("feature=" +:+ DQ +:+ DQ +:+ " n=1") =
    [("feature", ""); ("n", "1")].
Proof. reflexivity. Qed.

Example parse_open_quote :
  Re.finditer ("a=" +:+ DQ +:+ "never closed b=2") = [("b", "2")].
Proof. reflexivity. Qed.

Example parse_token_stops_at_quote :
  Re.finditer ("a=b=c" +:+ DQ +:+ "d e") = [("a", "b=c")].
Proof. reflexivity. Qed.

(** ** Characters of the strings the script builds *)

Section Chars.

Variable p : ascii → bool.

Lemma all_chars_app (s t : string) :
  all_chars p (s +:+ t) = all_chars p s && all_chars p t.
Proof.
  induction s as [|c s IH]; [done|].
  rewrite app_cons. simpl. by rewrite IH, andb_assoc.
Qed.

Lemma all_chars_drop (n : nat) (s : string) :
  all_chars p s = true → all_chars p (drop n s) = true.
Proof.
  revert s. induction n as [|n IH]; intros [|c s] Hs; try done.
  simpl in *. apply andb_true_iff in Hs as [_ Hs]. by apply IH.
Qed.

Lemma all_chars_lstrip (s : string) :
  all_chars p s = true → all_chars p (lstrip s) = true.
Proof.
  induction s as [|c s IH]; [done|]. intros Hs. simpl.
  destruct (is_space c); [|done].
  simpl in Hs. apply andb_true_iff in Hs as [_ Hs]. by apply IH.
Qed.

Lemma all_chars_rstrip (s : string) :
  all_chars p s = true → all_chars p (rstrip s) = true.
Proof.
  induction s as [|c s IH]; [done|]. intros Hs. simpl in *.
  apply andb_true_iff in Hs as [Hc Hs]. specialize (IH Hs).
  destruct (rstrip s) as [|d r].
  - destruct (is_space c); [done|]. simpl. by rewrite Hc.
  - simpl in *. by rewrite Hc, IH.
Qed.

Lemma all_chars_strip (s : string) :
  all_chars p s = true → all_chars p (strip s) = true.
Proof. intros Hs. by apply all_chars_rstrip, all_chars_lstrip. Qed.

Lemma all_chars_find_sep (sep s before after : string) :
  all_chars p s = true → find_sep sep s = Some (before, after) →
  all_chars p before = true ∧ all_chars p after = true.
Proof.
  revert before after. induction s as [|c s IH]; intros before after Hs Hf.
  - simpl in Hf. destruct (startswith sep ""); [|done].
    inversion Hf. split; [done|]. by apply all_chars_drop.
  - simpl in Hf. destruct (startswith sep (String c s)).
    + inversion Hf. split; [done|]. by apply all_chars_drop.
    + simpl in Hs. apply andb_true_iff in Hs as [Hc Hs].
      destruct (find_sep sep s) as [[b a]|]; [|done].
      inversion Hf; subst. destruct (IH b after Hs eq_refl) as [Hb Ha].
      split; [|done]. simpl. by rewrite Hc, Hb.
Qed.

Lemma all_chars_span (q : ascii → bool) (s : string) :
  all_chars p s = true →
  all_chars p (Re.span q s).1 = true ∧ all_chars p (Re.span q s).2 = true.
Proof.
  induction s as [|c s IH]; [done|]. intros Hs. simpl in *.
  apply andb_true_iff in Hs as [Hc Hs]. specialize (IH Hs) as [Ha Hb].
  destruct (q c).
  - destruct (Re.span q s) as [a b]. simpl in *. by rewrite Hc, Ha.
  - simpl. by rewrite Hc, Hs.
Qed.

Lemma all_chars_match_here (s key v rest : string) :
  all_chars p s = true → Re.match_here s = Some (key, v, rest) →
  all_chars p key = true ∧ all_chars p v = true ∧ all_chars p rest = true.
Proof.
  intros Hs Hm. unfold Re.match_here in Hm.
  destruct (all_chars_span is_word s Hs) as [Hk H1].
  destruct (Re.span is_word s) as [k s1]. simpl in *.
  destruct (truthy k); [|done].
  destruct s1 as [|c s2]; [done|].
  assert (all_chars p s2 = true) as H2.
  { simpl in H1. by apply andb_true_iff in H1 as [_ ?]. }
  assert (∀ x, match Re.quoted_value s2 with
               | Some (v0, r0) => Some (k, v0, r0)
               | None => match Re.token_value s2 with
                         | Some (v0, r0) => Some (k, v0, r0)
                         | None => None
                         end
               end = x → x = Some (key, v, rest) →
          all_chars p key = true ∧ all_chars p v = true ∧
          all_chars p rest = true) as Hval.
  { intros x <- Hx. unfold Re.quoted_value, Re.token_value in Hx.
    destruct (all_chars_span Re.token_char s2 H2) as [Ht1 Ht2].
    destruct (Re.span Re.token_char s2) as [tv tr]. simpl in *.
    destruct s2 as [|d s3].
    - destruct (truthy tv); inversion Hx; by subst.
    - destruct (bool_decide (d = DQ_char)).
      + simpl in H2. apply andb_true_iff in H2 as [_ H3].
        destruct (all_chars_span Re.not_quote s3 H3) as [Hq1 Hq2].
        destruct (Re.span Re.not_quote s3) as [qv qr]. simpl in *.
        destruct qr as [|e qr'].
        * destruct (truthy tv); inversion Hx; by subst.
        * inversion Hx; subst. simpl in Hq2.
          apply andb_true_iff in Hq2 as [_ ?]. done.
      + destruct (truthy tv); inversion Hx; by subst. }
  destruct c as [[] [] [] [] [] [] [] []]; try done.
  by eapply Hval.
Qed.

Lemma all_chars_finditer_fuel (fuel : nat) (s : string) :
  all_chars p s = true →
  Forall (λ kv, all_chars p kv.1 = true ∧ all_chars p kv.2 = true)
         (Re.finditer_fuel fuel s).
Proof.
  revert s. induction fuel as [|fuel IH]; intros s Hs; simpl; [done|].
  destruct s as [|c s]; [done|]. rewrite match_at_scan.
  destruct (Re.match_here (String c s)) as [[[key v] rest]|] eqn:Hm.
  - destruct (all_chars_match_here _ _ _ _ Hs Hm) as (Hk & Hv & Hr).
    constructor; [done|]. by apply IH.
  - apply IH. simpl in Hs. by apply andb_true_iff in Hs as [_ ?].
Qed.

(** The values of a parsed dictionary are made of characters of the
    attribute string. *)
Lemma all_chars_parse_attributes (s key v : string) :
  all_chars p s = true → parse_attributes s !! key = Some v →
  all_chars p v = true.
Proof.
  intros Hs. unfold parse_attributes, Re.finditer.
  pose proof (all_chars_finditer_fuel (String.length s) s Hs) as Hall.
  revert Hall. generalize (Re.finditer_fuel (String.length s) s).
  intros kvs Hall.
  assert (∀ m : gmap string string,
    (∀ k x, m !! k = Some x → all_chars p x = true) →
    ∀ k x, foldl (λ attributes '(key, value), <[key := value]> attributes)
                 m kvs !! k = Some x → all_chars p x = true) as Hfold.
  { induction Hall as [|[k0 v0] kvs [_ Hv0] _ IH]; intros m Hm; [done|].
    simpl. apply IH. intros k x. rewrite lookup_insert.
    case_decide; [by intros [= <-]|by apply Hm]. }
  apply (Hfold ∅). intros k x. by rewrite lookup_empty.
Qed.

Lemma all_chars_match_classes (pat : list Re.cls) (s m : string) :
  all_chars p s = true → Re.match_classes pat s = Some m →
  all_chars p m = true.
Proof.
  intros Hs Hm. destruct (match_classes_prefix _ _ _ Hm) as [r ->].
  rewrite all_chars_app in Hs. by apply andb_true_iff in Hs as [? _].
Qed.

Lemma all_chars_join (sep : string) (l : list string) :
  all_chars p sep = true → Forall (λ x, all_chars p x = true) l →
  all_chars p (join sep l) = true.
Proof.
  intros Hsep. induction 1 as [|x l Hx Hl IH]; [done|].
  destruct l as [|y l]; [done|].
  change (join sep (x :: y :: l)) with (x +:+ sep +:+ join sep (y :: l)).
  by rewrite !all_chars_app, Hx, Hsep, IH.
Qed.

End Chars.

(** ** Cutting at a separator *)

Lemma drop_app_length (p r : string) : drop (String.length p) (p +:+ r) = r.
Proof. induction p as [|c p IH]; [done|]. by rewrite app_cons. Qed.

Lemma startswith_drop (p s : string) :
  startswith p s = true → s = p +:+ drop (String.length p) s.
Proof.
  intros [r ->]%startswith_inv. by rewrite drop_app_length.
Qed.

Lemma find_sep_Some_eq (sep s before after : string) :
  find_sep sep s = Some (before, after) → s = before +:+ sep +:+ after.
Proof.
  revert before after. induction s as [|c s IH]; intros before after Hf;
    simpl in Hf.
  - destruct (startswith sep "") eqn:Hs; [|done]. inversion Hf.
    by apply startswith_drop.
  - destruct (startswith sep (String c s)) eqn:Hs.
    + inversion Hf. by apply startswith_drop.
    + destruct (find_sep sep s) as [[b a]|] eqn:Hf'; [|done].
      inversion Hf; subst. by rewrite (IH _ _ eq_refl) at 1.
Qed.

Lemma find_sep_shorter (sep s before after : string) :
  sep ≠ "" → find_sep sep s = Some (before, after) →
  (String.length after < String.length s)%nat.
Proof.
  intros Hsep Hf. pose proof (find_sep_Some_eq _ _ _ _ Hf) as Heq.
  apply (f_equal String.length) in Heq. rewrite !app_length_str in Heq.
  destruct sep; [done|]. simpl in Heq. lia.
Qed.

(** More fuel than the length of the text changes nothing: [split] never
    stops for lack of fuel. *)
Lemma split_fuel_enough (fuel : nat) (sep s : string) :
  sep ≠ "" → (String.length s < fuel)%nat →
  split_fuel fuel sep s = split sep s.
Proof.
  intros Hsep. unfold split.
  remember (String.length s) as n eqn:Hn.
  revert fuel s Hn. induction (lt_wf n) as [n _ IH]. intros fuel s -> Hlt.
  destruct fuel as [|fuel]; [lia|]. simpl.
  destruct (find_sep sep s) as [[before after]|] eqn:Hf; [|done].
  pose proof (find_sep_shorter _ _ _ _ Hsep Hf) as Hsh. f_equal.
  rewrite (IH (String.length after) Hsh fuel after eq_refl) by lia.
  by rewrite (IH (String.length after) Hsh (String.length s) after eq_refl)
    by lia.
Qed.

Lemma split_unfold (sep s : string) :
  sep ≠ "" →
  split sep s =
    match find_sep sep s with
    | None => [s]
    | Some (before, after) => before :: split sep after
    end.
Proof.
  intros Hsep. unfold split at 1. simpl.
  destruct (find_sep sep s) as [[before after]|] eqn:Hf; [|done].
  f_equal. apply split_fuel_enough; [done|].
  by apply (find_sep_shorter sep s before).
Qed.

(** ** Lines hold no line feed *)

Lemma find_sep_lf_None (s : string) :
  find_sep LF s = None → one_line s.
Proof.
  unfold one_line. induction s as [|c s IH]; [done|]. simpl.
  rewrite andb_true_r.
  unfold not_lf at 1. destruct (bool_decide (LF_char = c)) eqn:Hc.
  - discriminate.
  - destruct (find_sep LF s) as [[b a]|]; [done|]. intros _.
    apply bool_decide_eq_false in Hc.
    rewrite bool_decide_false by congruence. by rewrite IH.
Qed.

Lemma find_sep_lf_Some (s before after : string) :
  find_sep LF s = Some (before, after) → one_line before.
Proof.
  unfold one_line. revert before.
  induction s as [|c s IH]; intros before; [done|]. simpl.
  rewrite andb_true_r.
  unfold not_lf. destruct (bool_decide (LF_char = c)) eqn:Hc.
  - by intros [= <- _].
  - destruct (find_sep LF s) as [[b a]|]; [|done]. intros [= <- <-].
    apply bool_decide_eq_false in Hc. simpl.
    rewrite bool_decide_false by congruence. by apply IH.
Qed.

Lemma split_lf_one_line (s : string) : Forall one_line (split LF s).
Proof.
  remember (String.length s) as n eqn:Hn.
  revert s Hn. induction (lt_wf n) as [n _ IH]. intros s ->.
  rewrite split_unfold by done.
  destruct (find_sep LF s) as [[before after]|] eqn:Hf.
  - constructor; [by apply (find_sep_lf_Some s before after)|].
    apply (IH (String.length after)); [|done].
    by apply (find_sep_shorter LF s before).
  - constructor; [by apply find_sep_lf_None|done].
Qed.

Lemma upper_char_not_lf (c : ascii) :
  not_lf c = true → not_lf (upper_char c) = true.
Proof. by destruct c as [[] [] [] [] [] [] [] []]. Qed.

Lemma upper_one_line (s : string) : one_line s → one_line (upper s).
Proof.
  unfold one_line, upper. induction s as [|c s IH]; [done|]. simpl.
  intros [Hc Hs]%andb_true_iff.
  by rewrite (upper_char_not_lf _ Hc), (IH Hs).
Qed.

Lemma one_line_app (s t : string) :
  one_line (s +:+ t) ↔ one_line s ∧ one_line t.
Proof. unfold one_line. by rewrite all_chars_app, andb_true_iff. Qed.

(** ** The first occurrence of the separator *)


Lemma find_sep_None_contains (sep s : string) :
  find_sep sep s = None ↔ contains sep s = false.
Proof.
  induction s as [|c s IH]; simpl.
  - destruct (startswith sep ""); [split; discriminate|done].
  - destruct (startswith sep (String c s)); [split; discriminate|].
    simpl. rewrite <- IH. by destruct (find_sep sep s) as [[b a]|].
Qed.

Lemma contains_app (sep before after : string) :
  contains sep (before +:+ sep +:+ after) = true.
Proof.
  assert (∀ s, contains sep s =
            startswith sep s ||
            match s with "" => false | String _ s' => contains sep s' end)
    as Hunfold by by intros [|].
  induction before as [|c before IH].
  - by rewrite app_empty_l, Hunfold, startswith_app.
  - rewrite app_cons, Hunfold, IH. apply orb_true_r.
Qed.

Lemma find_sep_first (sep s before after : string) :
  sep ≠ "" → find_sep sep s = Some (before, after) →
  first_occurrence sep s before after.
Proof.
  intros Hsep Hf. split; [by apply find_sep_Some_eq|].
  revert before Hf. induction s as [|c s IH]; intros before Hf b' a' Heq;
    simpl in Hf.
  - destruct sep; [done|]. done.
  - destruct (startswith sep (String c s)) eqn:Hs.
    + inversion Hf. simpl. lia.
    + destruct (find_sep sep s) as [[b0 a0]|] eqn:Hf'; [|done].
      inversion Hf; subst before after. destruct b' as [|c' b'].
      * rewrite app_empty_l in Heq. by rewrite Heq, startswith_app in Hs.
      * rewrite app_cons in Heq. inversion Heq; subst.
        simpl. apply le_n_S. by apply (IH b0 eq_refl b' a').
Qed.


(** What one line contributes to the entries, in terms of its cuts. *)
Lemma entry_of_line_cut (line : string) :
  entry_of_line line =
    match find_sep SEPARATOR line with
    | None => None
    | Some (_, after) =>
        Some (entry_of_raw
                (strip match find_sep SEPARATOR after with
                       | None => after
                       | Some (field, _) => field
                       end))
    end.
Proof.
  unfold entry_of_line. rewrite split_unfold by done.
  destruct (find_sep SEPARATOR line) as [[before after]|]; [|done].
  rewrite (split_unfold _ after) by done.
  by destruct (find_sep SEPARATOR after) as [[field rest]|].
Qed.

(** ** The raw attribute string of a line *)

Example quoting_line_entry :
  snd <$> entry_of_line quoting_line =
    Some ("feature=" +:+ DQ +:+ "TCPOut" +:+ DQ +:+ " color=red reason="
            +:+ DQ +:+ "see") ∧
  spec_raw_attribute_string quoting_line = Some quoting_raw.
Proof. split; reflexivity. Qed.





(** ** Parsing the attributes *)

Lemma span_app (q : ascii → bool) (a b : string) :
  all_chars q a = true → stops q b = true → Re.span q (a +:+ b) = (a, b).
Proof.
  intros Ha Hb. induction a as [|c a IH].
  - rewrite app_empty_l. destruct b as [|d b]; [done|]. simpl in *.
    by apply negb_true_iff in Hb as ->.
  - rewrite app_cons. simpl in *. apply andb_true_iff in Ha as [-> Ha].
    by rewrite (IH Ha).
Qed.

Lemma truthy_true (s : string) : s ≠ "" → truthy s = true.
Proof. intros Hs. unfold truthy. by rewrite bool_decide_false. Qed.

(** A key, the equals sign and a value between quotes. *)
Lemma match_here_quoted (key v rest : string) :
  key ≠ "" → all_chars is_word key = true →
  all_chars Re.not_quote v = true →
  Re.match_here (key +:+ "=" +:+ DQ +:+ v +:+ DQ +:+ rest) =
    Some (key, v, rest).
Proof.
  intros Hne Hkey Hv. unfold Re.match_here.
  rewrite (span_app _ key) by done. rewrite truthy_true by done.
  change ("=" +:+ DQ +:+ v +:+ DQ +:+ rest)
    with (String "="%char (String DQ_char (v +:+ DQ +:+ rest))).
  cbv iota beta. unfold Re.quoted_value.
  rewrite bool_decide_true by done.
  by rewrite (span_app _ v) by done.
Qed.

(** A key, the equals sign and a value without quotes. *)
Lemma match_here_token (key v rest : string) :
  key ≠ "" → all_chars is_word key = true →
  v ≠ "" → all_chars Re.token_char v = true →
  stops Re.token_char rest = true →
  Re.match_here (key +:+ "=" +:+ v +:+ rest) = Some (key, v, rest).
Proof.
  intros Hne Hkey Hv Hall Hrest. unfold Re.match_here.
  rewrite (span_app _ key) by done. rewrite truthy_true by done.
  change ("=" +:+ v +:+ rest) with (String "="%char (v +:+ rest)).
  cbv iota beta.
  assert (Re.quoted_value (v +:+ rest) = None) as ->.
  { destruct v as [|c v]; [done|]. rewrite app_cons. simpl in *.
    apply andb_true_iff in Hall as [Hc _]. unfold Re.token_char in Hc.
    apply andb_true_iff in Hc as [Hc _]. unfold Re.not_quote in Hc.
    apply negb_true_iff in Hc. by rewrite Hc. }
  unfold Re.token_value. rewrite span_app by done.
  by rewrite truthy_true.
Qed.

(** No search of the parser stops for lack of fuel. *)
Lemma match_here_shorter (s key v rest : string) :
  Re.match_here s = Some (key, v, rest) →
  (String.length rest < String.length s)%nat.
Proof.
  assert (∀ q t, String.length (Re.span q t).2 ≤ String.length t)%nat
    as Hspan.
  { intros q t. induction t as [|c t IH]; [done|]. simpl.
    destruct (q c); [|done]. destruct (Re.span q t). simpl in *. lia. }
  unfold Re.match_here. pose proof (Hspan is_word s) as H1.
  destruct (Re.span is_word s) as [k s1]. simpl in H1.
  destruct (truthy k); [|done]. destruct s1 as [|c s2]; [done|].
  simpl in H1.
  assert (∀ x, match Re.quoted_value s2 with
               | Some (v0, r0) => Some (k, v0, r0)
               | None => match Re.token_value s2 with
                         | Some (v0, r0) => Some (k, v0, r0)
                         | None => None
                         end
               end = x → x = Some (key, v, rest) →
          (String.length rest < String.length s)%nat) as Hval.
  { intros x <- Hx. unfold Re.quoted_value, Re.token_value in Hx.
    pose proof (Hspan Re.token_char s2) as Ht.
    destruct (Re.span Re.token_char s2) as [tv tr]. simpl in Ht.
    destruct s2 as [|d s3].
    - destruct (truthy tv); inversion Hx; subst; simpl in *; lia.
    - destruct (bool_decide (d = DQ_char)).
      + pose proof (Hspan Re.not_quote s3) as Hq.
        destruct (Re.span Re.not_quote s3) as [qv qr]. simpl in Hq.
        destruct qr as [|e qr'].
        * destruct (truthy tv); inversion Hx; subst; simpl in *; lia.
        * inversion Hx; subst. simpl in *. lia.
      + destruct (truthy tv); inversion Hx; subst; simpl in *; lia. }
  destruct c as [[] [] [] [] [] [] [] []]; try done.
  by eapply Hval.
Qed.

Lemma finditer_fuel_enough (fuel : nat) (s : string) :
  (String.length s ≤ fuel)%nat →
  Re.finditer_fuel fuel s = Re.finditer s.
Proof.
  unfold Re.finditer. remember (String.length s) as n eqn:Hn.
  revert fuel s Hn. induction (lt_wf n) as [n _ IH]. intros fuel s -> Hle.
  destruct s as [|c s]; [by destruct fuel|].
  destruct fuel as [|fuel]; [simpl in Hle; lia|].
  simpl in Hle. simpl Re.finditer_fuel. rewrite match_at_scan.
  destruct (Re.match_here (String c s)) as [[[key v] rest]|] eqn:Hm.
  - apply match_here_shorter in Hm. simpl in Hm. f_equal.
    rewrite (IH (String.length rest)) by (simpl; lia).
    by rewrite (IH (String.length rest) ltac:(simpl; lia)
                  (String.length s) rest eq_refl) by lia.
  - by rewrite (IH (String.length s)) by (simpl; lia).
Qed.

(** [re.finditer], one step at a time. *)
Lemma finditer_unfold (s : string) :
  Re.finditer s =
    match s with
    | "" => []
    | String _ s' =>
        match Re.match_at s with
        | Some (key, v, rest) => (key, v) :: Re.finditer rest
        | None => Re.finditer s'
        end
    end.
Proof.
  destruct s as [|c s]; [done|]. unfold Re.finditer at 1.
  simpl Re.finditer_fuel. rewrite match_at_scan.
  destruct (Re.match_here (String c s)) as [[[key v] rest]|] eqn:Hm.
  - f_equal. apply finditer_fuel_enough.
    apply match_here_shorter in Hm. simpl in Hm. lia.
  - by apply finditer_fuel_enough.
Qed.

Lemma entry_of_line_parsed (line : string) (e : entry) :
  entry_of_line line = Some e → e.1 = parse_attributes e.2.
Proof.
  rewrite entry_of_line_cut.
  destruct (find_sep SEPARATOR line) as [[before after]|]; [|done].
  by intros [= <-].
Qed.

(** C7.  The attribute string
    [color=red feature=<Q>Indexing Pipeline<Q> count=3] ([<Q>] the quote)
    parses to the dictionary with [color] red, [feature] Indexing Pipeline
    and [count] 3, and the entry of a line holding it keeps that string
    unchanged beside the dictionary.  In general a value between quotes is
    the text between them, whatever it holds but a quote; a value of ASCII
    text without quotes is the run of characters up to the next white space
    or quote; and the dictionary of the entry of a line of ASCII text is the
    parse of its raw string. *)
Theorem parse_example_attributes :
  Re.finditer example_attributes =
    [("color", "red"); ("feature", "Indexing Pipeline"); ("count", "3")] ∧
  parse_attributes example_attributes =
    <["color" := "red"]>
      (<["feature" := "Indexing Pipeline"]> (<["count" := "3"]> ∅)) ∧
  collect_entries [log_line T2 example_attributes] =
    [(parse_attributes example_attributes, example_attributes)] ∧
  (∀ key v rest,
     key ≠ "" → all_chars is_word key = true →
     all_chars Re.not_quote v = true →
     Re.match_at (key +:+ "=" +:+ DQ +:+ v +:+ DQ +:+ rest) =
       Some (key, v, rest)) ∧
  (∀ key v rest,
     key ≠ "" → all_chars is_word key = true →
     v ≠ "" → is_ascii v → all_chars Re.token_char v = true →
     stops Re.token_char rest = true →
     Re.match_at (key +:+ "=" +:+ v +:+ rest) = Some (key, v, rest)) ∧
  (∀ line e,
     is_ascii line → entry_of_line line = Some e →
     is_ascii e.2 ∧ e.1 = parse_attributes e.2).
Proof.
  split; [reflexivity|]. split; [by vm_compute|].
  split; [by vm_compute|]. split.
  { intros. rewrite match_at_scan. by apply match_here_quoted. }
  split.
  { intros. rewrite match_at_scan. by apply match_here_token. }
  intros line e Hline He. split; [|by apply (entry_of_line_parsed line)].
  unfold is_ascii in *. rewrite entry_of_line_cut in He.
  destruct (find_sep SEPARATOR line) as [[before after]|] eqn:Hf; [|done].
  destruct (all_chars_find_sep _ _ _ _ _ Hline Hf) as [_ Hafter].
  injection He as <-. simpl. apply all_chars_strip.
  destruct (find_sep SEPARATOR after) as [[field rest]|] eqn:Hn; [|done].
  by destruct (all_chars_find_sep _ _ _ _ _ Hafter Hn).
Qed.

Lemma parse_example_attributes_witness :
  Re.match_at ("feature" +:+ "=" +:+ DQ +:+ "Indexing Pipeline" +:+ DQ
                 +:+ " count=3") =
    Some ("feature", "Indexing Pipeline", " count=3") ∧
  Re.match_at ("color" +:+ "=" +:+ "red" +:+ " feature") =
    Some ("color", "red", " feature") ∧
  (is_ascii (entry_of_raw rawB).2 ∧
   (entry_of_raw rawB).1 = parse_attributes (entry_of_raw rawB).2).
Proof.
  destruct parse_example_attributes as (_ & _ & _ & Hq & Ht & He).
  split; [|split].
  - apply Hq; [discriminate|reflexivity|reflexivity].
  - apply Ht;
      [discriminate|reflexivity|discriminate|reflexivity|reflexivity
      |reflexivity].
  - apply (He (log_line T2 rawB)); reflexivity.
Defined.

(** ** The report holds no line feed *)

Lemma select_block_inv (lines block : list string) (ts : string) :
  select_block lines = (Some block, Some ts, None) →
  ∃ last_line, last lines = Some last_line ∧
               Re.match_timestamp last_line = Some ts.
Proof.
  unfold select_block. destruct (last lines) as [last_line|]; [|done].
  destruct (Re.match_timestamp last_line) as [ts'|] eqn:Hts; [|done].
  intros [= _ <-]. by exists last_line.
Qed.

Lemma select_block_one_line (lines block : list string) (ts : string) :
  Forall one_line lines →
  select_block lines = (Some block, Some ts, None) →
  Forall one_line block ∧ one_line ts.
Proof.
  intros Hlines Hsel.
  destruct (select_block_inv _ _ _ Hsel) as (last_line & Hlast & Hts).
  destruct (select_block_spec _ _ _ Hlast Hts)
    as (older & block' & Hsel' & Heq & _).
  rewrite Hsel in Hsel'. injection Hsel' as <-. split.
  - rewrite Heq in Hlines. by apply Forall_app in Hlines as [_ ?].
  - apply (all_chars_match_classes _ Re.timestamp_pattern last_line ts);
      [|done].
    apply last_Some_elem_of in Hlast.
    by apply (proj1 (Forall_forall _ _) Hlines).
Qed.

Lemma get_latest_log_block_one_line (run : tail_outcome)
    (block : list string) (ts : string) :
  get_latest_log_block run = (Some block, Some ts, None) →
  Forall one_line block ∧ one_line ts.
Proof.
  destruct run as [returncode stdout stderr|e]; [|by destruct e]. simpl.
  case_bool_decide; [done|]. apply select_block_one_line.
  unfold filter_lines. apply Forall_forall. intros line Hin.
  apply list_elem_of_In, filter_In in Hin as [Hin _].
  apply list_elem_of_In in Hin.
  by apply (proj1 (Forall_forall _ _) (split_lf_one_line (strip stdout))).
Qed.

Lemma entry_of_line_one_line (line : string) (e : entry) :
  one_line line → entry_of_line line = Some e → entry_one_line e.
Proof.
  intros Hline. rewrite entry_of_line_cut.
  destruct (find_sep SEPARATOR line) as [[before after]|] eqn:Hf; [|done].
  destruct (all_chars_find_sep _ _ _ _ _ Hline Hf) as [_ Hafter].
  assert (one_line match find_sep SEPARATOR after with
                   | None => after
                   | Some (field, _) => field
                   end) as Hfield.
  { destruct (find_sep SEPARATOR after) as [[field rest]|] eqn:Hn; [|done].
    by destruct (all_chars_find_sep _ _ _ _ _ Hafter Hn). }
  apply all_chars_strip in Hfield. intros [= <-]. split; [done|].
  intros key v. by apply all_chars_parse_attributes.
Qed.

Lemma collect_entries_one_line (block : list string) :
  Forall one_line block → Forall entry_one_line (collect_entries block).
Proof.
  intros Hblock. apply Forall_forall. intros e He.
  apply list_elem_of_omap in He as (line & Hline & He).
  apply (entry_of_line_one_line line); [|done].
  by apply (proj1 (Forall_forall _ _) Hblock).
Qed.

Lemma problems_sublist (entries : list entry) (e : entry) :
  e ∈ problems entries → e ∈ entries.
Proof. rewrite elem_of_problems. by intros (_ & ? & _). Qed.

Lemma display_name_one_line (e : entry) :
  entry_one_line e → one_line (display_name e).
Proof.
  intros [_ Hvals]. unfold display_name, or_else.
  destruct (e.1 !! "feature") as [f|] eqn:Hf.
  { destruct (truthy f); [by apply (Hvals "feature")|].
    destruct (e.1 !! "node_path") as [n|] eqn:Hn; [|done].
    destruct (truthy n); [by apply (Hvals "node_path")|done]. }
  destruct (e.1 !! "node_path") as [n|] eqn:Hn; [|done].
  destruct (truthy n); [by apply (Hvals "node_path")|done].
Qed.

Lemma problem_item_one_line (e : entry) :
  entry_one_line e → one_line (problem_item e).
Proof.
  intros He. unfold problem_item. rewrite !one_line_app.
  split; [done|]. split; [|split; [done|by apply display_name_one_line]].
  apply upper_one_line. destruct He as [_ Hvals].
  destruct (e.1 !! "color") as [c|] eqn:Hc; [by apply (Hvals "color")|done].
Qed.

Lemma output_summary_one_line (entries : list entry) (ts : string) :
  one_line ts → one_line (output_summary entries ts).
Proof.
  intros Hts. unfold output_summary, status_text.
  rewrite status_of_max, overall_color_max. unfold color_at.
  rewrite !one_line_app. by repeat case_bool_decide.
Qed.

Lemma report_one_line (entries : list entry) (ts : string) :
  Forall entry_one_line entries → one_line ts → one_line (report entries ts).
Proof.
  intros Hentries Hts.
  assert (Forall entry_one_line (problems entries)) as Hprob.
  { apply Forall_forall. intros e He%problems_sublist.
    by apply (proj1 (Forall_forall _ _) Hentries). }
  unfold report. rewrite !one_line_app.
  split; [|split; [done|split; [done|split; [done|]]]].
  - rewrite status_code_max. pose proof (max_level_range entries).
    assert (max_level entries = 0 ∨ max_level entries = 1 ∨
            max_level entries = 2) as [->|[-> | ->]] by lia; done.
  - unfold final_output.
    destruct (problem_lines_raw entries) as [|raw raws] eqn:Hraws.
    + by apply output_summary_one_line.
    + rewrite <- Hraws. unfold output_summary_issues.
      rewrite !one_line_app.
      split; [split; [|split; [done|split; [|done]]]|split; [done|]].
      * by apply output_summary_one_line.
      * apply all_chars_join; [done|]. unfold problems_summary_list.
        apply Forall_take, Forall_fmap.
        apply (Forall_impl _ _ _ Hprob). intros e.
        apply problem_item_one_line.
      * apply all_chars_join; [done|]. unfold problem_lines_raw.
        apply Forall_fmap. apply (Forall_impl _ _ _ Hprob).
        by intros e [? _].
Qed.

(** ** The issues and the detail lines *)

Lemma problems_positive (entries : list entry) :
  status_code entries > 0 →
  problems entries = List.filter is_problem entries ∧ problems entries ≠ [].
Proof.
  intros Hpos. assert (problems entries = List.filter is_problem entries)
    as Heq by (unfold problems; by rewrite bool_decide_true).
  split; [done|]. apply status_positive in Hpos as (e & He & Hc).
  assert (e ∈ problems entries) as Hin.
  { apply elem_of_problems. split; [|split; [done|]].
    - apply status_positive. by exists e.
    - by destruct Hc as [-> | ->]. }
  intros Hnil. rewrite Hnil in Hin. by apply elem_of_nil in Hin.
Qed.

Lemma problem_lines_raw_nonempty (entries : list entry) :
  problem_lines_raw entries ≠ [] ↔ status_code entries > 0.
Proof.
  unfold problem_lines_raw. split.
  - unfold problems. case_bool_decide; [done|]. by intros [].
  - intros Hpos Hnil. apply fmap_nil_inv in Hnil.
    by destruct (problems_positive _ Hpos) as [_ ?].
Qed.

Lemma final_output_problems (entries : list entry) (ts : string) :
  problem_lines_raw entries ≠ [] →
  final_output entries ts =
    output_summary_issues entries ts +:+ BACKSLASH_N
      +:+ join BACKSLASH_N (problem_lines_raw entries).
Proof.
  intros Hne. unfold final_output.
  by destruct (problem_lines_raw entries).
Qed.

Lemma display_name_nonempty (e : entry) :
  display_name e =
    match nonempty_attr e "feature" with
    | Some feature => feature
    | None =>
        match nonempty_attr e "node_path" with
        | Some node_path => node_path
        | None => "Component"
        end
    end.
Proof.
  unfold display_name, or_else, nonempty_attr, truthy.
  destruct (e.1 !! "feature") as [f|];
    destruct (e.1 !! "node_path") as [n|]; repeat case_bool_decide; done.
Qed.

(** C5, as the specification words it, fails for an entry whose feature
    attribute is the empty string: the name shown is then the node path,
    not the feature. *)
Lemma issues_name_is_not_always_the_feature :
  status_code [entryUnnamed] > 0 ∧
  is_problem entryUnnamed = true ∧
  entryUnnamed.1 !! "feature" = Some "" ∧
  output_summary_issues [entryUnnamed] T2 =
    output_summary [entryUnnamed] T2
      +:+ " (Issues: [RED] splunkd.tcpout...)" ∧
  output_summary_issues [entryUnnamed] T2 ≠
    output_summary [entryUnnamed] T2 +:+ spec_issues_section [entryUnnamed].
Proof.
  split; [done|]. split; [done|]. split; [done|]. split; [done|].
  vm_compute. discriminate.
Qed.

(** C5, amended.  Whenever the status code is greater than 0 there is at
    least one problem entry, the problem entries being those whose colour
    is not green, and the summary line gains the section
    [ (Issues: ...)] that lists at most the first two problems as
    [[COLOR] name] items joined by a comma and a space, and always ends with
    three dots before the closing bracket.  [COLOR] is the colour attribute
    in upper case; the name is the feature attribute when present and not
    empty, else the node path attribute when present and not empty, else
    the word Component.  The colour attributes are taken to be ASCII text,
    on which [upper] is Python's. *)
Theorem issues_listing_format (entries : list entry) (timestamp : string) :
  status_code entries > 0 →
  (∀ e color, e ∈ entries → e.1 !! "color" = Some color → is_ascii color) →
  problems entries = List.filter is_problem entries ∧
  problems entries ≠ [] ∧
  (∃ details,
     final_output entries timestamp =
       (output_summary entries timestamp
          +:+ " (Issues: "
          +:+ join ", " (take 2 (problem_item <$> problems entries))
          +:+ "...)") +:+ details) ∧
  (∀ e, e ∈ problems entries →
     ∃ color,
       e.1 !! "color" = Some color ∧ is_ascii color ∧
       lower color ≠ "green" ∧
       problem_item e =
         "[" +:+ upper color +:+ "] " +:+
         match nonempty_attr e "feature" with
         | Some feature => feature
         | None =>
             match nonempty_attr e "node_path" with
             | Some node_path => node_path
             | None => "Component"
             end
         end).
Proof.
  intros Hpos Hascii. destruct (problems_positive _ Hpos) as [Heq Hne].
  split; [done|]. split; [done|]. split.
  - exists (BACKSLASH_N +:+ join BACKSLASH_N (problem_lines_raw entries)).
    rewrite final_output_problems by by apply problem_lines_raw_nonempty.
    unfold output_summary_issues, problems_summary_list.
    by rewrite !app_assoc_str.
  - intros e He. apply elem_of_problems in He as (_ & Hin & Hc).
    unfold entry_color in Hc. unfold problem_item.
    rewrite <- display_name_nonempty. specialize (Hascii e).
    destruct (e.1 !! "color") as [color|]; [|done]. exists color.
    split; [done|]. split; [by apply Hascii|done].
Qed.

Lemma issues_listing_format_witness :
  ∃ details,
    final_output [entryA; entryB; entryC; entryUnnamed] T2 =
      (output_summary [entryA; entryB; entryC; entryUnnamed] T2
         +:+ " (Issues: "
         +:+ join ", "
               (take 2 (problem_item
                          <$> problems [entryA; entryB; entryC; entryUnnamed]))
         +:+ "...)") +:+ details.
Proof.
  apply (issues_listing_format [entryA; entryB; entryC; entryUnnamed] T2);
    [reflexivity|].
  intros e color He Hcolor.
  repeat (apply elem_of_cons in He as [->|He]);
    [vm_compute in Hcolor; injection Hcolor as <-; reflexivity..|].
  by apply elem_of_nil in He.
Defined.

(** C6, as the specification words it, fails: an entry whose colour is
    outside the table is a problem entry, yet a block holding only such an
    entry is reported healthy, with no detail after the summary. *)
Lemma problem_entry_without_detail :
  is_problem entryBlue = true ∧
  report [entryBlue] T2 = ok_line T2 ∧
  final_output [entryBlue] T2 ≠
    output_summary_issues [entryBlue] T2 +:+ BACKSLASH_N
      +:+ join BACKSLASH_N (snd <$> List.filter is_problem [entryBlue]).
Proof. split; [done|]. split; [done|]. vm_compute. discriminate. Qed.

(** C6, amended.  When the status code is greater than 0, that is when some
    entry is yellow or red, the entries whose colour is not green are
    collected and there is at least one; the final output is then the
    summary line with its issues, a backslash and the letter n, and the raw
    attribute strings of those entries, in order, joined by the same two
    characters.  What [main] then prints from lines of ASCII text holds no
    line feed: it is one physical line.  The colour attributes are taken to
    be ASCII text, on which [upper] is Python's. *)
Theorem detail_lines_on_one_line (entries : list entry) (timestamp : string) :
  status_code entries > 0 →
  (∀ e color, e ∈ entries → e.1 !! "color" = Some color → is_ascii color) →
  (∃ e, e ∈ entries ∧ (entry_color e = "yellow" ∨ entry_color e = "red")) ∧
  problem_lines_raw entries = snd <$> List.filter is_problem entries ∧
  problem_lines_raw entries ≠ [] ∧
  final_output entries timestamp =
    output_summary_issues entries timestamp +:+ BACKSLASH_N
      +:+ join BACKSLASH_N (snd <$> List.filter is_problem entries) ∧
  BACKSLASH_N = String "092"%char (String "n"%char "") ∧
  one_line BACKSLASH_N ∧
  (∀ run block,
     get_latest_log_block run = (Some block, Some timestamp, None) →
     Forall is_ascii block →
     collect_entries block = entries →
     main run =
       str_of_int (status_code entries) +:+ " " +:+ SERVICE +:+ " - "
         +:+ output_summary_issues entries timestamp +:+ BACKSLASH_N
         +:+ join BACKSLASH_N (snd <$> List.filter is_problem entries) ∧
     one_line (main run)).
Proof.
  intros Hpos _. pose proof Hpos as Hne.
  apply problem_lines_raw_nonempty in Hne.
  pose proof (final_output_problems _ timestamp Hne) as Hfinal.
  assert (problem_lines_raw entries = snd <$> List.filter is_problem entries)
    as Hraws.
  { unfold problem_lines_raw. by destruct (problems_positive _ Hpos) as [-> _]. }
  split; [by apply status_positive|]. split; [done|]. split; [done|].
  rewrite <- Hraws. split; [done|]. split; [done|]. split; [done|].
  intros run block Hrun _ <-.
  assert (collect_entries block ≠ []) as Hentries.
  { intros Hnil. rewrite Hnil in Hne. by apply Hne. }
  rewrite (main_report _ _ _ Hrun Hentries). split.
  - unfold report. by rewrite Hfinal.
  - destruct (get_latest_log_block_one_line _ _ _ Hrun) as [Hblock Hts].
    apply report_one_line; [|done]. by apply collect_entries_one_line.
Qed.

Lemma detail_lines_on_one_line_witness :
  main (Completed 0 sample_stdout "") =
    str_of_int (status_code [entryA; entryB; entryC]) +:+ " " +:+ SERVICE
      +:+ " - " +:+ output_summary_issues [entryA; entryB; entryC] T2
      +:+ BACKSLASH_N
      +:+ join BACKSLASH_N
            (snd <$> List.filter is_problem [entryA; entryB; entryC]) ∧
  one_line (main (Completed 0 sample_stdout "")).
Proof.
  assert (∀ e color, e ∈ [entryA; entryB; entryC] →
                     e.1 !! "color" = Some color → is_ascii color) as Hascii.
  { intros e color He Hcolor.
    repeat (apply elem_of_cons in He as [->|He]);
      [vm_compute in Hcolor; injection Hcolor as <-; reflexivity..|].
    by apply elem_of_nil in He. }
  apply (proj2 (proj2 (proj2 (proj2 (proj2 (proj2
           (detail_lines_on_one_line [entryA; entryB; entryC] T2
              ltac:(reflexivity) Hascii))))))
           (Completed 0 sample_stdout "")
           [log_line T2 rawA; log_line T2 rawB; log_line T2 rawC]);
    [reflexivity| |reflexivity].
  repeat constructor.
Defined.

(** * Further properties of the script *)

(** ** Substrings *)

Lemma app_empty_r (s : string) : s +:+ "" = s.
Proof. induction s as [|c s IH]; [done|]. by rewrite app_cons, IH. Qed.

Lemma substring_refl (s : string) : substring s s.
Proof. exists "", "". by rewrite app_empty_l, app_empty_r. Qed.

Lemma substring_trans (a b c : string) :
  substring a b → substring b c → substring a c.
Proof.
  intros (p1 & q1 & ->) (p2 & q2 & ->).
  exists (p2 +:+ p1), (q1 +:+ q2). by rewrite !app_assoc_str.
Qed.

Lemma substring_cons (part s : string) (c : ascii) :
  substring part s → substring part (String c s).
Proof. intros (p & q & ->). by exists (String c p), q. Qed.

Lemma contains_substring (sub s : string) :
  contains sub s = true ↔ substring sub s.
Proof.
  split.
  - intros Hc. destruct (find_sep sub s) as [[b a]|] eqn:Hf.
    + exists b, a. by apply find_sep_Some_eq.
    + apply find_sep_None_contains in Hf. congruence.
  - intros (b & a & ->). apply contains_app.
Qed.

Lemma contains_mono (sub part s : string) :
  substring part s → contains sub part = true → contains sub s = true.
Proof.
  rewrite !contains_substring. intros H1 H2. by eapply substring_trans.
Qed.

Lemma lstrip_substring (s : string) : substring (lstrip s) s.
Proof.
  induction s as [|c s IH]; [apply substring_refl|]. simpl.
  destruct (is_space c); [by apply substring_cons|apply substring_refl].
Qed.

Lemma rstrip_prefix (s : string) : ∃ b, s = rstrip s +:+ b.
Proof.
  induction s as [|c s [b IH]]; [by exists ""|]. simpl.
  destruct (rstrip s) as [|d r] eqn:Hr.
  - destruct (is_space c).
    + by exists (String c s).
    + exists b. rewrite app_cons. f_equal. by rewrite IH at 1.
  - exists b. rewrite app_cons. f_equal. by rewrite IH at 1.
Qed.

Lemma strip_substring (s : string) : substring (strip s) s.
Proof.
  apply (substring_trans _ (lstrip s)); [|apply lstrip_substring].
  destruct (rstrip_prefix (lstrip s)) as [b Hb].
  exists "", b. by rewrite app_empty_l.
Qed.

Lemma split_substring (sep s part : string) :
  sep ≠ "" → part ∈ split sep s → substring part s.
Proof.
  intros Hsep. remember (String.length s) as n eqn:Hn.
  revert s Hn. induction (lt_wf n) as [n _ IH]. intros s ->.
  rewrite split_unfold by done.
  destruct (find_sep sep s) as [[before after]|] eqn:Hf.
  - pose proof (find_sep_Some_eq _ _ _ _ Hf) as Heq.
    intros [->|Hin]%elem_of_cons.
    + exists "", (sep +:+ after). by rewrite app_empty_l.
    + apply (IH (String.length after)) in Hin;
        [|by apply (find_sep_shorter sep s before)|done].
      apply (substring_trans _ after); [done|].
      exists (before +:+ sep), "". by rewrite app_empty_r, app_assoc_str.
  - intros ->%list_elem_of_singleton. apply substring_refl.
Qed.

(** Every line kept from the output holds the marker and is a piece of the
    output. *)
Lemma kept_lines_spec (stdout line : string) :
  line ∈ kept_lines stdout →
  contains MARKER line = true ∧ substring line stdout ∧ one_line line.
Proof.
  unfold kept_lines, filter_lines.
  intros [Hin Hm]%list_elem_of_In%filter_In. apply list_elem_of_In in Hin.
  split; [done|]. split.
  - apply (substring_trans _ (strip stdout)); [|apply strip_substring].
    by apply (split_substring LF).
  - by apply (proj1 (Forall_forall _ _) (split_lf_one_line (strip stdout))).
Qed.

(** ** The unknown states of [main] *)

(** X1.  When the tail command succeeds and its output nowhere holds the
    marker [PeriodicHealthReporter] (in particular when the output is
    empty), [main] reports the unknown state with the message that no entry
    was found. *)
Theorem no_marker_reports_no_entries (stdout stderr : string) :
  contains MARKER stdout = false →
  get_latest_log_block (Completed 0 stdout stderr) =
    (None, None, Some NO_ENTRIES) ∧
  main (Completed 0 stdout stderr) = unknown_line NO_ENTRIES.
Proof.
  intros Hno.
  assert (kept_lines stdout = []) as Hnil.
  { destruct (kept_lines stdout) as [|line lines] eqn:Hk; [done|].
    destruct (kept_lines_spec stdout line) as (Hm & Hsub & _).
    { rewrite Hk. apply list_elem_of_here. }
    by rewrite (contains_mono _ _ _ Hsub Hm) in Hno. }
  assert (get_latest_log_block (Completed 0 stdout stderr) =
            (None, None, Some NO_ENTRIES)) as Hblock.
  { unfold get_latest_log_block. simpl.
    fold (kept_lines stdout). by rewrite Hnil. }
  split; [done|]. unfold main. by rewrite Hblock.
Qed.

Lemma no_marker_reports_no_entries_witness :
  main (Completed 0 "" "") = unknown_line NO_ENTRIES.
Proof. apply (no_marker_reports_no_entries "" ""). reflexivity. Defined.

(** X2.  When the tail command succeeds and the last line holding the
    marker, a line of ASCII text (on which the digits of the pattern are
    0 to 9), does not begin with a timestamp of the expected form, [main]
    reports the unknown state with the message that the timestamp could not
    be determined, whatever the lines before it are. *)
Theorem bad_last_line_reports_no_timestamp (stdout stderr last_line : string) :
  last (kept_lines stdout) = Some last_line →
  is_ascii last_line →
  Re.match_timestamp last_line = None →
  get_latest_log_block (Completed 0 stdout stderr) =
    (None, None, Some NO_TIMESTAMP) ∧
  main (Completed 0 stdout stderr) = unknown_line NO_TIMESTAMP.
Proof.
  intros Hlast _ Hts.
  assert (get_latest_log_block (Completed 0 stdout stderr) =
            (None, None, Some NO_TIMESTAMP)) as Hblock.
  { unfold get_latest_log_block. simpl. fold (kept_lines stdout).
    unfold select_block. by rewrite Hlast, Hts. }
  split; [done|]. unfold main. by rewrite Hblock.
Qed.

Lemma bad_last_line_reports_no_timestamp_witness :
  main (Completed 0 iso_stdout "") = unknown_line NO_TIMESTAMP.
Proof.
  apply (bad_last_line_reports_no_timestamp iso_stdout ""
           ("2025-11-14 10:02:00.000 +0100 INFO  PeriodicHealthReporter - "
              +:+ rawB));
    reflexivity.
Defined.

(** The result of [get_latest_log_block] is either an error message alone
    or a block with its timestamp. *)
Lemma block_result_cases (run : tail_outcome) :
  (∃ message,
     get_latest_log_block run = (None, None, Some message) ∧
     (message = NO_ENTRIES ∨ message = NO_TIMESTAMP ∨
      (∃ e, run = Raised e ∧
            message = "Error reading log file: " +:+ exn_str e) ∨
      (∃ returncode stdout stderr,
         run = Completed returncode stdout stderr ∧ returncode ≠ 0 ∧
         message = "Error running 'tail' command: " +:+ stderr))) ∨
  (∃ block ts last_line stdout stderr,
     run = Completed 0 stdout stderr ∧
     get_latest_log_block run = (Some block, Some ts, None) ∧
     last (kept_lines stdout) = Some last_line ∧
     last block = Some last_line ∧
     Re.match_timestamp last_line = Some ts).
Proof.
  destruct run as [returncode stdout stderr|e].
  - simpl. case_bool_decide as Hrc.
    + left. eexists. split; [done|]. right. right. right.
      by exists returncode, stdout, stderr.
    + assert (returncode = 0) as -> by lia. fold (kept_lines stdout).
      unfold select_block.
      destruct (last (kept_lines stdout)) as [last_line|] eqn:Hlast.
      * destruct (Re.match_timestamp last_line) as [ts|] eqn:Hts.
        -- right.
           destruct (select_block_spec _ _ _ Hlast Hts)
             as (older & block & Hsel & _ & Hlb & _).
           unfold select_block in Hsel. rewrite Hlast, Hts in Hsel.
           exists block, ts, last_line, stdout, stderr.
           by injection Hsel as ->.
        -- left. eexists. split; [done|]. by right; left.
      * left. eexists. split; [done|]. by left.
  - left. destruct e as [msg|msg]; simpl; eexists; (split; [done|]);
      right; right; left; by eexists.
Qed.


Lemma unknown_line_inj (a b : string) :
  unknown_line a = unknown_line b → a = b.
Proof.
  unfold unknown_line. rewrite <- !app_assoc_str.
  apply (inj (String.app _)).
Qed.

Lemma report_not_unknown (entries : list entry) (ts message : string) :
  report entries ts ≠ unknown_line message.
Proof.
  unfold report, unknown_line. rewrite status_code_max.
  pose proof (max_level_range entries).
  assert (max_level entries = 0 ∨ max_level entries = 1 ∨
          max_level entries = 2) as [->|[-> | ->]] by lia; discriminate.
Qed.

(** What [main] prints, path by path. *)
Lemma main_cases (run : tail_outcome) :
  (∃ message,
     get_latest_log_block run = (None, None, Some message) ∧
     main run = unknown_line message) ∨
  (∃ block ts,
     get_latest_log_block run = (Some block, Some ts, None) ∧
     ((collect_entries block = [] ∧ main run = unknown_line NO_ATTRIBUTES) ∨
      (collect_entries block ≠ [] ∧
       main run = report (collect_entries block) ts))).
Proof.
  destruct (block_result_cases run)
    as [(message & Hres & Hmsg)|(block & ts & l & out & err & _ & Hres & _
                                   & Hlb & _)].
  - left. exists message. split; [done|]. unfold main. rewrite Hres.
    by destruct Hmsg
      as [->|[->|[(e & _ & ->)|(rc & out & err & _ & _ & ->)]]].
  - right. exists block, ts. split; [done|].
    destruct (collect_entries block) as [|e entries] eqn:Hentries.
    + left. split; [done|]. unfold main. rewrite Hres.
      destruct block; [done|]. simpl. simpl in Hentries.
      by rewrite Hentries.
    + right. split; [done|]. rewrite <- Hentries.
      apply main_report; [done|]. by rewrite Hentries.
Qed.

(** X4.  Two messages of the source are never printed.  The message that
    no valid block was found needs an empty block without error, which
    [get_latest_log_block] never returns.  The message that the tail
    command was not found belongs to a handler placed after the one for
    [IOError], which takes that exception first: a missing tail command is
    reported as a failure to read the log file. *)
Theorem unreachable_messages (run : tail_outcome) :
  main run ≠ unknown_line NO_BLOCK ∧
  main run ≠ unknown_line TAIL_NOT_FOUND ∧
  (get_latest_log_block run).2 ≠ Some TAIL_NOT_FOUND ∧
  (∀ msg, run = Raised (FileNotFoundError msg) →
          main run = unknown_line ("Error reading log file: " +:+ msg)).
Proof.
  assert (∀ dead, (dead = NO_BLOCK ∨ dead = TAIL_NOT_FOUND) →
                  main run ≠ unknown_line dead) as Hdead.
  { intros dead Hd.
    destruct (main_cases run)
      as [(message & Hres & ->)|(block & ts & Hres & [[_ ->]|[_ ->]])].
    - intros Heq%unknown_line_inj.
      destruct (block_result_cases run)
        as [(message' & Hres' & Hmsg)|(b & t & l & o & e & _ & Hres' & _)];
        rewrite Hres in Hres'; [|done]. injection Hres' as <-.
      rewrite Heq in Hmsg.
      destruct Hmsg
        as [Hm|[Hm|[(e & _ & Hm)|(rc & out & err & _ & _ & Hm)]]];
        destruct Hd as [Hd|Hd]; rewrite Hd in Hm; discriminate.
    - intros Heq%unknown_line_inj. destruct Hd as [-> | ->]; discriminate.
    - apply report_not_unknown. }
  split; [apply Hdead; by left|]. split; [apply Hdead; by right|]. split.
  - destruct (block_result_cases run)
      as [(message & -> & Hmsg)|(b & t & l & o & e & _ & -> & _)]; [|done].
    simpl. intros [= ->].
    destruct Hmsg as [?|[?|[(e & _ & ?)|(rc & out & err & _ & _ & ?)]]];
      discriminate.
  - by intros msg ->.
Qed.

Lemma unreachable_messages_witness :
  main (Raised (FileNotFoundError TAIL_MISSING)) =
    unknown_line ("Error reading log file: " +:+ TAIL_MISSING).
Proof.
  by apply (unreachable_messages (Raised (FileNotFoundError TAIL_MISSING))).
Defined.

(** ** The entries of a block *)

Lemma entry_of_line_some (line : string) :
  is_Some (entry_of_line line) ↔ contains SEPARATOR line = true.
Proof.
  rewrite entry_of_line_cut.
  destruct (find_sep SEPARATOR line) as [[before after]|] eqn:Hf.
  - split; [|by eexists]. intros _.
    destruct (contains SEPARATOR line) eqn:Hc; [done|].
    apply find_sep_None_contains in Hc. congruence.
  - apply find_sep_None_contains in Hf. rewrite Hf.
    split; [by intros [? ?]|done].
Qed.

Lemma collect_entries_length (block : list string) :
  length (collect_entries block) =
    length (List.filter (contains SEPARATOR) block).
Proof.
  induction block as [|line block IH]; [done|].
  unfold collect_entries in *. cbn [omap list_omap List.filter].
  pose proof (entry_of_line_some line) as Hsome.
  destruct (entry_of_line line) as [e|].
  - rewrite (proj1 Hsome) by by eexists. simpl. by rewrite IH.
  - destruct (contains SEPARATOR line); [|done].
    by destruct (proj2 Hsome eq_refl).
Qed.

(** X5.  The block gives one entry for each of its lines that holds the
    separator [PeriodicHealthReporter - ], so it gives none exactly when no
    line holds it; [main] then reports the unknown state with the message
    that no attributes were parsed, and otherwise prints the report of the
    entries. *)
Theorem no_separator_reports_no_attributes (run : tail_outcome)
    (block : list string) (ts : string) :
  get_latest_log_block run = (Some block, Some ts, None) →
  length (collect_entries block) =
    length (List.filter (contains SEPARATOR) block) ∧
  ((∀ line, line ∈ block → contains SEPARATOR line = false) →
     main run = unknown_line NO_ATTRIBUTES) ∧
  ((∃ line, line ∈ block ∧ contains SEPARATOR line = true) →
     main run = report (collect_entries block) ts).
Proof.
  intros Hres. split; [apply collect_entries_length|].
  destruct (main_cases run)
    as [(message & Hres' & _)|(block' & ts' & Hres' & Hmain)];
    rewrite Hres in Hres'; [done|]. injection Hres' as <- <-.
  pose proof (collect_entries_length block) as Hlen. split.
  - intros Hnone.
    assert (List.filter (contains SEPARATOR) block = []) as Hnil.
    { destruct (List.filter (contains SEPARATOR) block) as [|l ls] eqn:Hf;
        [done|].
      assert (In l (List.filter (contains SEPARATOR) block)) as Hin
        by (rewrite Hf; by left).
      apply filter_In in Hin as [Hin Hc]. apply list_elem_of_In in Hin.
      by rewrite (Hnone _ Hin) in Hc. }
    rewrite Hnil in Hlen. destruct Hmain as [[_ ?]|[Hne _]]; [done|].
    by destruct (collect_entries block).
  - intros (line & Hin & Hc).
    assert (In line (List.filter (contains SEPARATOR) block)) as Hf.
    { apply filter_In. split; [by apply list_elem_of_In|done]. }
    destruct Hmain as [[Hnil _]|[_ ?]]; [|done].
    rewrite Hnil in Hlen.
    by destruct (List.filter (contains SEPARATOR) block).
Qed.

Lemma no_separator_reports_no_attributes_witness :
  main (Completed 0 (T2 +:+ " INFO  PeriodicHealthReporter: started") "") =
    unknown_line NO_ATTRIBUTES.
Proof.
  apply (proj1 (proj2 (no_separator_reports_no_attributes
           (Completed 0 (T2 +:+ " INFO  PeriodicHealthReporter: started") "")
           [T2 +:+ " INFO  PeriodicHealthReporter: started"] T2 eq_refl))).
  intros line ->%list_elem_of_singleton. reflexivity.
Defined.

(** ** The line printed *)

Lemma final_output_starts (entries : list entry) (ts : string) :
  ∃ rest, final_output entries ts = status_text entries +:+ ": " +:+ rest.
Proof.
  unfold final_output.
  destruct (problem_lines_raw entries) as [|raw raws].
  - by eexists.
  - unfold output_summary_issues, output_summary.
    rewrite !app_assoc_str. by eexists.
Qed.

(** X6.  A run of the script either prints nothing, which happens exactly
    when the captured output of the tail command cannot be decoded and the
    exception is left uncaught, or prints a status code, the quoted service
    name, a dash, and a text that begins with the word for that code: 0 with
    OK, 1 with WARN, 2 with CRIT, 3 with UNKNOWN. *)
Theorem output_contract (r : run_result) :
  (run_script r = None ∧ r = Undecodable) ∨
  (∃ run code word rest,
     r = Outcome run ∧
     run_script r =
       Some (code +:+ " " +:+ SERVICE +:+ " - " +:+ word +:+ ": " +:+ rest) ∧
     ((code = "0" ∧ word = "OK") ∨ (code = "1" ∧ word = "WARN") ∨
      (code = "2" ∧ word = "CRIT") ∨ (code = "3" ∧ word = "UNKNOWN"))).
Proof.
  destruct r as [run|]; [right|by left]. exists run. simpl.
  destruct (main_cases run)
    as [(message & _ & ->)|(block & ts & _ & [[_ ->]|[_ ->]])].
  - exists "3", "UNKNOWN", message. repeat split. by repeat right.
  - exists "3", "UNKNOWN", NO_ATTRIBUTES. repeat split. by repeat right.
  - destruct (final_output_starts (collect_entries block) ts) as [rest Hf].
    unfold report. rewrite Hf. unfold status_text, status_code.
    rewrite status_of_max. repeat case_bool_decide.
    + exists "2", "CRIT", rest. repeat split. by right; right; left.
    + exists "1", "WARN", rest. repeat split. by right; left.
    + exists "0", "OK", rest. repeat split. by left.
Qed.

Lemma unknown_line_one_line (message : string) :
  one_line (unknown_line message) ↔ one_line message.
Proof.
  unfold unknown_line. rewrite !one_line_app. split; [by intros (_&_&_&?)|].
  by intros ?.
Qed.

Lemma main_tail_failure (returncode : Z) (stdout stderr : string) :
  returncode ≠ 0 →
  main (Completed returncode stdout stderr) =
    unknown_line ("Error running 'tail' command: " +:+ stderr).
Proof.
  intros Hrc. unfold main, get_latest_log_block.
  by rewrite bool_decide_true.
Qed.

(** X7.  When the tail command succeeds, what [main] prints holds no line
    feed on any path.  When it fails, or cannot be started, the error text
    is printed as it is: the output is one line exactly when that text holds
    no line feed. *)
Theorem printed_line_feeds :
  (∀ stdout stderr, one_line (main (Completed 0 stdout stderr))) ∧
  (∀ returncode stdout stderr,
     returncode ≠ 0 →
     (one_line (main (Completed returncode stdout stderr)) ↔
      one_line stderr)) ∧
  (∀ e, one_line (main (Raised e)) ↔ one_line (exn_str e)).
Proof.
  split; [|split].
  - intros stdout stderr.
    destruct (main_cases (Completed 0 stdout stderr))
      as [(message & Hres & ->)|(block & ts & Hres & [[_ ->]|[_ ->]])].
    + apply unknown_line_one_line.
      destruct (block_result_cases (Completed 0 stdout stderr))
        as [(message' & Hres' & Hmsg)|(b & t & l & o & e & _ & Hres' & _)];
        rewrite Hres in Hres'; [|done]. injection Hres' as <-.
      destruct Hmsg
        as [->|[->|[(e & ? & _)|(rc & out & err & Hrun & Hrc & _)]]];
        [done|done|done|].
      by injection Hrun as <- _ _.
    + by apply unknown_line_one_line.
    + destruct (get_latest_log_block_one_line _ _ _ Hres) as [Hblock Hts].
      apply report_one_line; [|done]. by apply collect_entries_one_line.
  - intros returncode stdout stderr Hrc.
    rewrite (main_tail_failure returncode stdout stderr Hrc).
    rewrite unknown_line_one_line, one_line_app. split; [by intros [_ ?]|done].
  - intros e. assert (main (Raised e) =
      unknown_line ("Error reading log file: " +:+ exn_str e)) as ->
      by by destruct e.
    rewrite unknown_line_one_line, one_line_app. split; [by intros [_ ?]|done].
Qed.

Lemma printed_line_feeds_witness :
  ¬ one_line
      (main (Completed 1 ""
               ("tail: cannot open the log: No such file" +:+ LF))).
Proof.
  intros H.
  apply (proj1 (proj2 printed_line_feeds) 1 ""
           ("tail: cannot open the log: No such file" +:+ LF)) in H;
    [discriminate|lia].
Defined.

(** ** The dictionary of an attribute string *)

Lemma foldl_insert_lookup (key : string) (kvs : list (string * string))
    (m : gmap string string) :
  foldl (λ attributes '(k, v), <[k := v]> attributes) m kvs !! key =
    match last (values_of key kvs) with
    | Some v => Some v
    | None => m !! key
    end.
Proof.
  revert m. induction kvs as [|[k v] kvs IH]; intros m; [done|].
  simpl foldl. rewrite IH. unfold values_of.
  cbn [omap list_omap fst snd]. fold (values_of key kvs).
  rewrite lookup_insert. case_bool_decide as Hk; case_decide; try done.
  rewrite last_cons. by destruct (last (values_of key kvs)).
Qed.

(** X8.  Looking a key up in the parsed dictionary gives the value of the
    last match of the pattern that has this key, and nothing when no match
    has it: a repeated attribute keeps its last value. *)
Theorem parse_attributes_last_wins (s key : string) :
  parse_attributes s !! key = last (values_of key (Re.finditer s)) ∧
  (parse_attributes s !! key = None ↔ key ∉ (Re.finditer s).*1) ∧
  (∀ before v after,
     Re.finditer s = before ++ (key, v) :: after → key ∉ after.*1 →
     parse_attributes s !! key = Some v).
Proof.
  assert (parse_attributes s !! key = last (values_of key (Re.finditer s)))
    as Hlast.
  { unfold parse_attributes. rewrite foldl_insert_lookup, lookup_empty.
    by destruct (last (values_of key (Re.finditer s))). }
  assert (∀ kvs, values_of key kvs = [] ↔ key ∉ kvs.*1) as Hnil.
  { induction kvs as [|[k v] kvs IH];
      [split; [intros _; apply not_elem_of_nil|done]|].
    unfold values_of in *. cbn [omap list_omap fst snd fmap list_fmap].
    rewrite not_elem_of_cons. case_bool_decide as Hk.
    - split; [done|]. by intros [? _].
    - rewrite IH. split; [by split|by intros [_ ?]]. }
  split; [done|]. split.
  - by rewrite Hlast, last_None.
  - intros before v after Heq Hnot. rewrite Hlast, Heq.
    unfold values_of. rewrite omap_app. cbn [omap list_omap fst snd].
    rewrite bool_decide_true by done. fold (values_of key after).
    rewrite (proj2 (Hnil after) Hnot). apply last_snoc.
Qed.

Lemma parse_attributes_last_wins_witness :
  parse_attributes "color=green x=1 color=red" !! "color" = Some "red".
Proof.
  apply (proj2 (proj2 (parse_attributes_last_wins
                         "color=green x=1 color=red" "color"))
           [("color", "green"); ("x", "1")] "red" []);
    [reflexivity|apply not_elem_of_nil].
Defined.

Lemma span_all (p : ascii → bool) (s : string) :
  all_chars p (Re.span p s).1 = true.
Proof.
  induction s as [|c s IH]; [done|]. simpl. destruct (p c) eqn:Hc; [|done].
  destruct (Re.span p s) as [a b]. simpl in *. by rewrite Hc, IH.
Qed.

Lemma truthy_nonempty (s : string) : truthy s = true → s ≠ "".
Proof. unfold truthy. by intros ?%negb_true_iff%bool_decide_eq_false. Qed.

(** A match of the attribute pattern reads a key, the equals sign, and a
    value that is either between quotes or a run without quote or white
    space. *)
Lemma match_here_inv (s key v rest : string) :
  Re.match_here s = Some (key, v, rest) →
  key ≠ "" ∧ all_chars is_word key = true ∧
  ((s = key +:+ "=" +:+ DQ +:+ v +:+ DQ +:+ rest ∧
    all_chars Re.not_quote v = true) ∨
   (s = key +:+ "=" +:+ v +:+ rest ∧ v ≠ "" ∧
    all_chars Re.token_char v = true ∧ stops Re.token_char rest = true)).
Proof.
  unfold Re.match_here. pose proof (span_eq is_word s) as Hs.
  pose proof (span_all is_word s) as Hk.
  destruct (Re.span is_word s) as [k s1]. simpl in Hs, Hk.
  destruct (truthy k) eqn:Htk; [|done]. apply truthy_nonempty in Htk.
  destruct s1 as [|c s2]; [done|].
  assert (∀ x, match Re.quoted_value s2 with
               | Some (v0, r0) => Some (k, v0, r0)
               | None => match Re.token_value s2 with
                         | Some (v0, r0) => Some (k, v0, r0)
                         | None => None
                         end
               end = x → x = Some (key, v, rest) → c = "="%char →
          key ≠ "" ∧ all_chars is_word key = true ∧
          ((s = key +:+ "=" +:+ DQ +:+ v +:+ DQ +:+ rest ∧
            all_chars Re.not_quote v = true) ∨
           (s = key +:+ "=" +:+ v +:+ rest ∧ v ≠ "" ∧
            all_chars Re.token_char v = true ∧
            stops Re.token_char rest = true))) as Hval.
  { intros x <- Hx ->. unfold Re.quoted_value, Re.token_value in Hx.
    pose proof (span_eq Re.token_char s2) as Ht.
    pose proof (span_all Re.token_char s2) as Hta.
    pose proof (span_stops Re.token_char s2) as Hts.
    destruct (Re.span Re.token_char s2) as [tv tr]. simpl in Ht, Hta, Hts.
    assert (truthy tv = true → Some (k, tv, tr) = Some (key, v, rest) →
            key ≠ "" ∧ all_chars is_word key = true ∧
            ((s = key +:+ "=" +:+ DQ +:+ v +:+ DQ +:+ rest ∧
              all_chars Re.not_quote v = true) ∨
             (s = key +:+ "=" +:+ v +:+ rest ∧ v ≠ "" ∧
              all_chars Re.token_char v = true ∧
              stops Re.token_char rest = true))) as Htoken.
    { intros Htv%truthy_nonempty [= <- <- <-]. split; [done|].
      split; [done|]. right. by rewrite Hs, Ht. }
    destruct s2 as [|d s3].
    - destruct (truthy tv) eqn:Htv; [by apply Htoken|done].
    - destruct (bool_decide (d = DQ_char)) eqn:Hd.
      + apply bool_decide_eq_true in Hd as ->.
        pose proof (span_eq Re.not_quote s3) as Hq.
        pose proof (span_all Re.not_quote s3) as Hqa.
        pose proof (span_stops Re.not_quote s3) as Hqs.
        destruct (Re.span Re.not_quote s3) as [qv qr]. simpl in Hq, Hqa, Hqs.
        destruct qr as [|e qr'].
        * destruct (truthy tv) eqn:Htv; [by apply Htoken|done].
        * injection Hx as <- <- <-. split; [done|]. split; [done|]. left.
          split; [|done]. simpl in Hqs. unfold Re.not_quote in Hqs.
          rewrite negb_involutive in Hqs.
          apply bool_decide_eq_true in Hqs as ->. by rewrite Hs, Hq.
      + destruct (truthy tv) eqn:Htv; [by apply Htoken|done]. }
  destruct (decide (c = "="%char)) as [->|Hc].
  - intros Hm. by eapply Hval.
  - by destruct c as [[] [] [] [] [] [] [] []].
Qed.

Lemma suffix_of_refl (s : string) : suffix_of s s.
Proof. by exists "". Qed.

Lemma suffix_of_trans (a b c : string) :
  suffix_of a b → suffix_of b c → suffix_of a c.
Proof.
  intros [p ->] [q ->]. exists (q +:+ p). by rewrite app_assoc_str.
Qed.

(** Every match found is a match of the pattern at some place of the
    text. *)
Lemma finditer_fuel_elem (fuel : nat) (s key v : string) :
  (key, v) ∈ Re.finditer_fuel fuel s →
  ∃ t rest, suffix_of t s ∧ Re.match_here t = Some (key, v, rest).
Proof.
  revert s. induction fuel as [|fuel IH]; intros s; simpl.
  { by intros ?%elem_of_nil. }
  destruct s as [|c s]; [by intros ?%elem_of_nil|]. rewrite match_at_scan.
  destruct (Re.match_here (String c s)) as [[[k w] rest]|] eqn:Hm.
  - intros [[= <- <-]|Hin]%elem_of_cons.
    + exists (String c s), rest. split; [apply suffix_of_refl|done].
    + destruct (IH _ Hin) as (t & r & Hsuf & Ht). exists t, r.
      split; [|done]. apply (suffix_of_trans _ rest); [done|].
      destruct (match_here_inv _ _ _ _ Hm) as (_ & _ & [[-> _]|[-> _]]).
      * exists (k +:+ "=" +:+ DQ +:+ w +:+ DQ). by rewrite !app_assoc_str.
      * exists (k +:+ "=" +:+ w). by rewrite !app_assoc_str.
  - intros Hin. destruct (IH _ Hin) as (t & r & [p ->] & Ht).
    exists t, r. split; [|done]. by exists (String c p).
Qed.

Lemma parse_attributes_elem (s key v : string) :
  parse_attributes s !! key = Some v → (key, v) ∈ Re.finditer s.
Proof.
  unfold parse_attributes. rewrite foldl_insert_lookup, lookup_empty.
  intros Hl. assert (last (values_of key (Re.finditer s)) = Some v) as Hlast
    by by destruct (last (values_of key (Re.finditer s))).
  apply last_Some_elem_of in Hlast. unfold values_of in Hlast.
  apply list_elem_of_omap in Hlast as ([k w] & Hin & Hkv). simpl in Hkv.
  case_bool_decide; [|done]. by simplify_eq.
Qed.



Lemma parse_attributes_key_written (s key v : string) :
  parse_attributes s !! key = Some v → substring (key +:+ "=") s.
Proof.
  intros Hin%parse_attributes_elem.
  apply finditer_fuel_elem in Hin as (t & rest & [p ->] & Hm).
  destruct (match_here_inv _ _ _ _ Hm) as (_ & _ & [[-> _]|[-> _]]).
  - exists p, (DQ +:+ v +:+ DQ +:+ rest). by rewrite !app_assoc_str.
  - exists p, (v +:+ rest). by rewrite !app_assoc_str.
Qed.

(** ** The raw string of an entry *)

Lemma lstrip_fixed (s : string) :
  stops is_space s = true → lstrip s = s.
Proof.
  destruct s as [|c s]; [done|]. simpl.
  by intros ->%negb_true_iff.
Qed.

Lemma lstrip_stops (s : string) : stops is_space (lstrip s) = true.
Proof.
  induction s as [|c s IH]; [done|]. simpl.
  destruct (is_space c) eqn:Hc; [done|]. simpl. by rewrite Hc.
Qed.

Lemma rstrip_head (c : ascii) (s : string) :
  is_space c = false → ∃ r, rstrip (String c s) = String c r.
Proof.
  intros Hc. simpl. destruct (rstrip s); rewrite ?Hc; by eexists.
Qed.

Lemma rstrip_stops (s : string) :
  stops is_space s = true → stops is_space (rstrip s) = true.
Proof.
  destruct s as [|c s]; [done|]. intros Hc%negb_true_iff.
  destruct (rstrip_head c s Hc) as [r ->]. simpl. by rewrite Hc.
Qed.

Lemma rstrip_idem (s : string) : rstrip (rstrip s) = rstrip s.
Proof.
  induction s as [|c s IH]; [done|]. simpl.
  destruct (rstrip s) as [|d r] eqn:Hr.
  - destruct (is_space c) eqn:Hc; [done|]. simpl. by rewrite Hc.
  - change (rstrip (String c (String d r)))
      with (match rstrip (String d r) with
            | "" => if is_space c then "" else String c ""
            | r' => String c r'
            end).
    rewrite IH. done.
Qed.

Lemma strip_idem (s : string) : strip (strip s) = strip s.
Proof.
  unfold strip. rewrite (lstrip_fixed (rstrip (lstrip s))).
  - apply rstrip_idem.
  - apply rstrip_stops, lstrip_stops.
Qed.

Lemma substring_contains_false (sep part s : string) :
  substring part s → contains sep s = false → contains sep part = false.
Proof.
  intros Hsub Hs. destruct (contains sep part) eqn:Hp; [|done].
  by rewrite (contains_mono _ _ _ Hsub Hp) in Hs.
Qed.

Lemma first_occurrence_no_earlier (sep s before after : string) :
  sep ≠ "" → first_occurrence sep s before after →
  contains sep before = false.
Proof.
  intros Hsep [-> Hmin]. destruct (contains sep before) eqn:Hc; [|done].
  apply contains_substring in Hc as (x & y & ->).
  specialize (Hmin x (y +:+ sep +:+ after)).
  rewrite !app_assoc_str in Hmin. specialize (Hmin eq_refl).
  rewrite !app_length_str in Hmin. destruct sep; [done|]. simpl in Hmin. lia.
Qed.

Lemma entry_of_line_substring (line : string) (e : entry) :
  entry_of_line line = Some e → substring e.2 line.
Proof.
  rewrite entry_of_line_cut.
  destruct (find_sep SEPARATOR line) as [[before after]|] eqn:Hf; [|done].
  intros [= <-]. simpl. apply (substring_trans _ after).
  - destruct (find_sep SEPARATOR after) as [[field rest]|] eqn:Hn;
      [|apply strip_substring].
    apply (substring_trans _ field); [apply strip_substring|].
    exists "", (SEPARATOR +:+ rest). rewrite app_empty_l.
    by apply find_sep_Some_eq.
  - exists (before +:+ SEPARATOR), "".
    rewrite app_empty_r, app_assoc_str. by apply find_sep_Some_eq.
Qed.

(** X10.  The raw attribute string kept with the entry of a line of ASCII
    text is a piece of that line, has no white space at either end, and
    does not hold the separator. *)
Theorem entry_raw_string (line : string) (e : entry) :
  is_ascii line →
  entry_of_line line = Some e →
  substring e.2 line ∧ strip e.2 = e.2 ∧ contains SEPARATOR e.2 = false.
Proof.
  intros _ He. split; [by apply entry_of_line_substring|].
  rewrite entry_of_line_cut in He.
  destruct (find_sep SEPARATOR line) as [[before after]|] eqn:Hf; [|done].
  injection He as <-. simpl. split; [apply strip_idem|].
  destruct (find_sep SEPARATOR after) as [[field rest]|] eqn:Hn.
  - assert (first_occurrence SEPARATOR after field rest) as Hfirst
      by by apply find_sep_first.
    apply (substring_contains_false _ _ field); [apply strip_substring|].
    by apply (first_occurrence_no_earlier _ after field rest).
  - apply (substring_contains_false _ _ after); [apply strip_substring|].
    by apply find_sep_None_contains.
Qed.

Lemma entry_raw_string_witness :
  substring (entry_of_raw rawB).2 (log_line T2 ("  " +:+ rawB +:+ " ")) ∧
  strip (entry_of_raw rawB).2 = (entry_of_raw rawB).2 ∧
  contains SEPARATOR (entry_of_raw rawB).2 = false.
Proof.
  apply (entry_raw_string (log_line T2 ("  " +:+ rawB +:+ " ")));
    reflexivity.
Defined.

(** X11.  A block none of whose lines holds the text [color=] is reported
    as healthy, provided some line holds the separator: an entry without a
    colour counts as green. *)
Theorem no_color_is_ok (run : tail_outcome) (block : list string)
    (ts : string) :
  get_latest_log_block run = (Some block, Some ts, None) →
  (∃ line, line ∈ block ∧ contains SEPARATOR line = true) →
  (∀ line, line ∈ block → contains "color=" line = false) →
  main run = ok_line ts.
Proof.
  intros Hres Hsep Hnocolor.
  destruct (main_cases run)
    as [(message & Hres' & _)|(block' & ts' & Hres' & Hmain)];
    rewrite Hres in Hres'; [done|]. injection Hres' as <- <-.
  destruct Hmain as [[Hnil _]|[_ ->]].
  - destruct Hsep as (line & Hin & Hc).
    apply entry_of_line_some in Hc as [e He].
    assert (e ∈ collect_entries block) as Hine
      by (apply list_elem_of_omap; by exists line).
    rewrite Hnil in Hine. by apply elem_of_nil in Hine.
  - apply report_ok, max_level_zero. intros e He.
    apply list_elem_of_omap in He as (line & Hin & He).
    apply level_green. unfold entry_color.
    destruct (e.1 !! "color") as [v|] eqn:Hv; [|done].
    rewrite (entry_of_line_parsed _ _ He) in Hv.
    apply parse_attributes_key_written in Hv.
    pose proof (entry_of_line_substring _ _ He) as Hraw.
    assert (contains "color=" line = true) as Hc.
    { apply contains_substring. by apply (substring_trans _ e.2). }
    by rewrite (Hnocolor _ Hin) in Hc.
Qed.

Lemma no_color_is_ok_witness :
  main (Completed 0 (log_line T2 "feature=TCPOut status=failed") "") =
    ok_line T2.
Proof.
  apply (no_color_is_ok
           (Completed 0 (log_line T2 "feature=TCPOut status=failed") "")
           [log_line T2 "feature=TCPOut status=failed"] T2).
  - reflexivity.
  - exists (log_line T2 "feature=TCPOut status=failed").
    split; [apply list_elem_of_here|reflexivity].
  - intros line ->%list_elem_of_singleton. reflexivity.
Defined.

(** ** The block, once more *)

Lemma collect_block_all (ts : string) (reversed_lines acc : list string) :
  Forall (λ l, startswith ts l = true) reversed_lines →
  collect_block ts reversed_lines acc = reverse reversed_lines ++ acc.
Proof.
  intros Hall. revert acc.
  induction Hall as [|line more Hline _ IH]; intros acc; [done|].
  simpl. rewrite Hline, IH. by rewrite reverse_cons, <- app_assoc.
Qed.

Lemma collect_block_stop (ts x : string) (matching more acc : list string) :
  Forall (λ l, startswith ts l = true) matching →
  startswith ts x = false →
  collect_block ts (matching ++ x :: more) acc = reverse matching ++ acc.
Proof.
  intros Hall Hx. revert acc.
  induction Hall as [|line matching Hline _ IH]; intros acc.
  - simpl. by rewrite Hx.
  - simpl. rewrite Hline, IH. by rewrite reverse_cons, <- app_assoc.
Qed.

(** X12.  Selecting the block again from a selected block gives the same
    block and timestamp; and the lines before the block have no part in the
    result: the same block is selected whatever comes before a line that
    does not start with the timestamp. *)
Theorem select_block_stable (lines block : list string) (ts : string) :
  select_block lines = (Some block, Some ts, None) →
  select_block block = (Some block, Some ts, None) ∧
  (∀ history x, startswith ts x = false →
     select_block (history ++ x :: block) = (Some block, Some ts, None)).
Proof.
  intros Hsel.
  destruct (select_block_inv _ _ _ Hsel) as (last_line & Hlast & Hts).
  destruct (select_block_spec _ _ _ Hlast Hts)
    as (older & block' & Hsel' & _ & Hlb & Hall & _).
  rewrite Hsel in Hsel'. injection Hsel' as <-. split.
  - unfold select_block. rewrite Hlb, Hts.
    rewrite collect_block_all by by apply Forall_reverse.
    by rewrite reverse_involutive, app_nil_r.
  - intros history x Hx. unfold select_block.
    assert (last (history ++ x :: block) = Some last_line) as ->.
    { rewrite last_app, last_cons. by rewrite Hlb. }
    rewrite Hts, reverse_app, reverse_cons, <- app_assoc. cbn [app].
    rewrite collect_block_stop; [|by apply Forall_reverse|done].
    by rewrite reverse_involutive, app_nil_r.
Qed.

Lemma select_block_stable_witness :
  select_block [log_line T2 rawA; log_line T2 rawB; log_line T2 rawC] =
    (Some [log_line T2 rawA; log_line T2 rawB; log_line T2 rawC],
     Some T2, None) ∧
  select_block
    ([log_line T2 rawB] ++ log_line T1 rawC
       :: [log_line T2 rawA; log_line T2 rawB; log_line T2 rawC]) =
    (Some [log_line T2 rawA; log_line T2 rawB; log_line T2 rawC],
     Some T2, None).
Proof.
  destruct (select_block_stable five_lines
              [log_line T2 rawA; log_line T2 rawB; log_line T2 rawC] T2
              eq_refl) as [H1 H2].
  split; [exact H1|]. by apply H2.
Defined.

Lemma match_classes_idem (pat : list Re.cls) (s m : string) :
  Re.match_classes pat s = Some m → Re.match_classes pat m = Some m.
Proof.
  revert s m. induction pat as [|k pat IH]; intros s m Hm; simpl in Hm.
  - by injection Hm as <-.
  - destruct s as [|c s]; [done|]. destruct (Re.accepts k c) eqn:Hc; [|done].
    destruct (Re.match_classes pat s) as [m'|] eqn:Hm'; [|done].
    injection Hm as <-. simpl. by rewrite Hc, (IH _ _ Hm').
Qed.

(** X13.  The timestamp of a line is its first 29 characters: it is
    followed by the rest of the line, is its own timestamp, and is the
    timestamp of every text that begins with it. *)
Theorem timestamp_is_prefix (line ts : string) :
  Re.match_timestamp line = Some ts →
  String.length ts = 29%nat ∧
  (∃ rest, line = ts +:+ rest) ∧
  Re.match_timestamp ts = Some ts ∧
  (∀ rest, Re.match_timestamp (ts +:+ rest) = Some ts).
Proof.
  intros Hts. split;
    [by rewrite (match_classes_length Re.timestamp_pattern line ts)|].
  split; [by apply (match_classes_prefix Re.timestamp_pattern)|].
  pose proof (match_classes_idem _ _ _ Hts) as Hidem.
  split; [done|]. intros rest. by apply match_classes_app.
Qed.

Lemma timestamp_is_prefix_witness :
  String.length T2 = 29%nat ∧
  (∃ rest, log_line T2 rawB = T2 +:+ rest) ∧
  Re.match_timestamp T2 = Some T2 ∧
  (∀ rest, Re.match_timestamp (T2 +:+ rest) = Some T2).
Proof. apply (timestamp_is_prefix (log_line T2 rawB) T2). reflexivity. Defined.

(** ** White space around the captured output *)

Lemma lstrip_app_space (a s : string) :
  all_chars is_space a = true → lstrip (a +:+ s) = lstrip s.
Proof.
  induction a as [|c a IH]; [done|]. intros Hall. simpl in Hall.
  apply andb_true_iff in Hall as [Hc Ha]. rewrite app_cons. simpl.
  by rewrite Hc, IH.
Qed.

Lemma rstrip_space (b : string) :
  all_chars is_space b = true → rstrip b = "".
Proof.
  induction b as [|c b IH]; [done|]. intros Hall. simpl in Hall.
  apply andb_true_iff in Hall as [Hc Hb]. simpl. by rewrite IH, Hc.
Qed.

Lemma rstrip_app_space (s b : string) :
  all_chars is_space b = true → rstrip (s +:+ b) = rstrip s.
Proof.
  intros Hb. induction s as [|c s IH].
  - rewrite app_empty_l. by apply rstrip_space.
  - rewrite app_cons. simpl. by rewrite IH.
Qed.

Lemma strip_app_space (a s b : string) :
  all_chars is_space a = true → all_chars is_space b = true →
  strip (a +:+ s +:+ b) = strip s.
Proof.
  intros Ha Hb. unfold strip. rewrite lstrip_app_space by done.
  induction s as [|c s IH].
  - rewrite app_empty_l.
    replace (lstrip b) with "";
      [done|]. clear -Hb. induction b as [|c b IH]; [done|]. simpl in *.
    apply andb_true_iff in Hb as [-> Hb]. by apply IH.
  - rewrite app_cons. simpl. destruct (is_space c); [done|].
    rewrite <- app_cons. by apply rstrip_app_space.
Qed.

(** X14.  White space before and after the captured output of the tail
    command, blank lines included, changes neither the selected block nor
    what [main] prints. *)
Theorem surrounding_space_ignored (a stdout b stderr : string) :
  all_chars is_space a = true → all_chars is_space b = true →
  get_latest_log_block (Completed 0 (a +:+ stdout +:+ b) stderr) =
    get_latest_log_block (Completed 0 stdout stderr) ∧
  main (Completed 0 (a +:+ stdout +:+ b) stderr) =
    main (Completed 0 stdout stderr).
Proof.
  intros Ha Hb.
  assert (get_latest_log_block (Completed 0 (a +:+ stdout +:+ b) stderr) =
            get_latest_log_block (Completed 0 stdout stderr)) as Heq.
  { unfold get_latest_log_block. simpl. by rewrite strip_app_space. }
  split; [done|]. unfold main. by rewrite Heq.
Qed.

Lemma surrounding_space_ignored_witness :
  main (Completed 0 (LF +:+ sample_stdout +:+ (" " +:+ LF +:+ LF)) "") =
    main (Completed 0 sample_stdout "").
Proof.
  apply (surrounding_space_ignored LF sample_stdout (" " +:+ LF +:+ LF) "");
    reflexivity.
Defined.

(** ** The status of a block *)

(** X15.  The status code of two lists of entries put together is the
    higher of their status codes: more entries never lower the status, and
    the whole is healthy only if both parts are. *)
Theorem status_code_app (entries1 entries2 : list entry) :
  status_code (entries1 ++ entries2) =
    Z.max (status_code entries1) (status_code entries2) ∧
  status_code entries1 ≤ status_code (entries1 ++ entries2) ∧
  status_code entries2 ≤ status_code (entries1 ++ entries2) ∧
  (status_code (entries1 ++ entries2) = 0 ↔
     status_code entries1 = 0 ∧ status_code entries2 = 0).
Proof.
  rewrite !status_code_max, max_level_app.
  pose proof (max_level_range entries1).
  pose proof (max_level_range entries2). lia.
Qed.

(** X16.  The summary is one of three texts, fixed by the status code: OK
    with GREEN for 0, WARN with YELLOW for 1, CRIT with RED for 2, each
    followed by the log time. *)
Theorem summary_texts (entries : list entry) (timestamp : string) :
  (status_code entries = 0 ∧
   output_summary entries timestamp =
     "OK: Overall status is GREEN (Log Time: " +:+ timestamp +:+ ")") ∨
  (status_code entries = 1 ∧
   output_summary entries timestamp =
     "WARN: Overall status is YELLOW (Log Time: " +:+ timestamp +:+ ")") ∨
  (status_code entries = 2 ∧
   output_summary entries timestamp =
     "CRIT: Overall status is RED (Log Time: " +:+ timestamp +:+ ")").
Proof.
  unfold output_summary, status_text. rewrite status_code_max.
  rewrite status_of_max, overall_color_max.
  pose proof (max_level_range entries).
  assert (max_level entries = 0 ∨ max_level entries = 1 ∨
          max_level entries = 2) as [->|[-> | ->]] by lia.
  - by left.
  - by right; left.
  - by right; right.
Qed.

(** X17.  On the path without error [main] prints the healthy line exactly
    when no entry of the block is yellow or red. *)
Theorem healthy_iff_no_yellow_or_red (run : tail_outcome)
    (block : list string) (ts : string) :
  get_latest_log_block run = (Some block, Some ts, None) →
  collect_entries block ≠ [] →
  (main run = ok_line ts ↔
   ∀ e, e ∈ collect_entries block →
        entry_color e ≠ "yellow" ∧ entry_color e ≠ "red").
Proof.
  intros Hres Hne. rewrite (main_report _ _ _ Hres Hne). split.
  - intros Hok e He.
    destruct (decide (status_code (collect_entries block) > 0)) as [Hpos|Hz].
    + exfalso. revert Hok. unfold report, ok_line.
      rewrite status_code_max in *.
      pose proof (max_level_range (collect_entries block)).
      assert (max_level (collect_entries block) = 1 ∨
              max_level (collect_entries block) = 2) as [-> | ->] by lia;
        discriminate.
    + split; intros Hc; apply Hz, status_positive; exists e; auto.
  - intros Hall. apply report_ok, max_level_zero. intros e He.
    destruct (Hall e He) as [Hy Hr].
    destruct (level_cases e) as [[? _]|[[? _]|[[_ ?]|(_ & ? & _)]]]; done.
Qed.

Lemma healthy_iff_no_yellow_or_red_witness :
  main (Completed 0 (log_line T2 rawA +:+ LF +:+ log_line T2 rawBlue) "") =
    ok_line T2 ↔
  ∀ e, e ∈ collect_entries [log_line T2 rawA; log_line T2 rawBlue] →
       entry_color e ≠ "yellow" ∧ entry_color e ≠ "red".
Proof.
  apply (healthy_iff_no_yellow_or_red
           (Completed 0 (log_line T2 rawA +:+ LF +:+ log_line T2 rawBlue) "")
           [log_line T2 rawA; log_line T2 rawBlue] T2);
    [reflexivity|discriminate].
Defined.

(** ** The labels of the issues *)

Lemma upper_lower_char (c : ascii) :
  upper_char (lower_char c) = upper_char c.
Proof. by destruct c as [[] [] [] [] [] [] [] []]. Qed.

Lemma upper_lower (s : string) : upper (lower s) = upper s.
Proof.
  unfold upper, lower. induction s as [|c s IH]; [done|]. simpl.
  by rewrite upper_lower_char, IH.
Qed.

(** X18.  For a colour attribute of ASCII text, the label of a problem in
    the issues is the colour of its entry in upper case, however the log
    wrote it: [[RED]] for a red entry, [[YELLOW]] for a yellow one.  The
    label [N/A] of the source is never shown. *)
Theorem issue_labels (entries : list entry) (e : entry) :
  e ∈ problems entries →
  (∀ color, e.1 !! "color" = Some color → is_ascii color) →
  problem_item e = "[" +:+ upper (entry_color e) +:+ "] " +:+ display_name e ∧
  (entry_color e = "red" → problem_item e = "[RED] " +:+ display_name e) ∧
  (entry_color e = "yellow" →
     problem_item e = "[YELLOW] " +:+ display_name e) ∧
  e.1 !! "color" ≠ None.
Proof.
  intros (_ & _ & Hc)%elem_of_problems _.
  assert (problem_item e =
            "[" +:+ upper (entry_color e) +:+ "] " +:+ display_name e) as Hitem.
  { unfold problem_item, entry_color in *.
    destruct (e.1 !! "color") as [v|]; [|done]. simpl.
    by rewrite upper_lower. }
  split; [done|]. rewrite Hitem. split; [by intros ->|].
  split; [by intros ->|]. unfold entry_color in Hc.
  by destruct (e.1 !! "color").
Qed.

Lemma issue_labels_witness :
  problem_item (entry_of_raw "color=Red feature=TCPOut") =
    "[RED] " +:+ display_name (entry_of_raw "color=Red feature=TCPOut").
Proof.
  apply (issue_labels [entry_of_raw "color=Red feature=TCPOut"]);
    [| |reflexivity].
  - apply elem_of_problems. repeat split; [apply list_elem_of_here|done].
  - intros color Hcolor. vm_compute in Hcolor.
    injection Hcolor as <-. reflexivity.
Defined.
